(** * The streaming turn of the LLM Council frontend

    A shallow embedding of the pieces of the frontend that carry the
    streaming protocol, and of what stands around them:

    - the API client ([api.sendMessageStream], listed with
      [frontend/src/main.jsx]): opens the stream, cuts every delivered
      chunk into lines, parses the [data: ] lines as JSON and hands them
      to the [onEvent] callback;
    - [frontend/src/App.jsx] ([handleSendMessage],
      [handleRegenerateMessage]): the optimistic append of the user
      message and the pending assistant message, the [switch] that folds
      the events into the last message, the rollback of the [catch] block
      and the truncate-and-resend of a regeneration;
    - the handlers around them in [App.jsx] ([handleStopGeneration] with
      [api.cancelRequest], and the handlers of the list of
      conversations), the selection handlers of [Settings.jsx], the
      message groups of [ChatInterface.jsx] and the short model names of
      [Stage2.jsx].

    Text is kept as the sequence of its UTF-8 bytes ([string]); the
    separators and literals the code looks for are ASCII, so cutting and
    comparing bytes is cutting and comparing the JavaScript string. *)

From Stdlib Require Import ZArith Ascii String List Bool Lia.
From stdpp Require Import base tactics option list strings.

Set Warnings "-register-all".

Open Scope string_scope.
Open Scope list_scope.
Open Scope Z_scope.

(** ** JavaScript values that flow through the event handlers *)

Module JS.

(** A value produced by [JSON.parse]. Numbers keep their lexeme, objects
    keep their members in source order, duplicates included. *)
Inductive json :=
| JNull
| JBool (b : bool)
| JNumber (lexeme : string)
| JString (s : string)
| JArray (items : list json)
| JObject (members : list (string * json)).

(** What a property read can give: [undefined] or a parsed value. *)
Inductive value :=
| undefined
| of_json (j : json).

(** [null] as the literal the code writes. *)
Definition null : value := of_json JNull.

(** An object built by [JSON.parse] holds, for a repeated key, the last
    member. *)
Fixpoint member (k : string) (ms : list (string * json)) : value :=
  match ms with
  | [] => undefined
  | (k', v) :: rest =>
      match member k rest with
      | undefined => if String.eqb k k' then of_json v else undefined
      | found => found
      end
  end.

(** [o.k] for the keys the program reads ([type], [data], [models],
    [metadata], [message]; none of them lives on a built-in prototype).
    Reading a property of [null] throws a TypeError: [None]. *)
Definition get (o : json) (k : string) : option value :=
  match o with
  | JNull => None
  | JObject ms => Some (member k ms)
  | _ => Some undefined
  end.

Definition is_digit (c : ascii) : bool :=
  let n := N_of_ascii c in ((48 <=? n) && (n <=? 57))%N.

Definition digit_value (c : ascii) : Z := Z.of_N (N_of_ascii c) - 48.

Fixpoint take_digits (s : list ascii) : list ascii * list ascii :=
  match s with
  | c :: r =>
      if is_digit c
      then let '(ds, r') := take_digits r in (c :: ds, r')
      else ([], s)
  | [] => ([], [])
  end.

Definition digits_value (ds : list ascii) : Z :=
  fold_left (fun acc c => 10 * acc + digit_value c) ds 0.

(** A JSON number lexeme as [m * 10 ^ e], sign dropped. *)
Definition decimal_of_lexeme (lx : string) : Z * Z :=
  let s := list_ascii_of_string lx in
  let s := match s with "-"%char :: r => r | _ => s end in
  let '(int, s) := take_digits s in
  let '(frac, s) :=
    match s with
    | "."%char :: r => take_digits r
    | _ => ([], s)
    end in
  let ex :=
    match s with
    | _ :: "-"%char :: r => - digits_value (fst (take_digits r))
    | _ :: "+"%char :: r => digits_value (fst (take_digits r))
    | _ :: r => digits_value (fst (take_digits r))
    | [] => 0
    end in
  (digits_value (int ++ frac), ex - Z.of_nat (length frac)).

(** Does the number read as [0] (or [-0])? The nearest double of a
    magnitude of at most [2 ^ -1075] is zero. *)
Definition number_is_zero (lx : string) : bool :=
  let '(m, e) := decimal_of_lexeme lx in
  (m =? 0) || ((e <? 0) && (m * 2 ^ 1075 <=? 10 ^ (- e))).

(** ToBoolean. *)
Definition truthy (v : value) : bool :=
  match v with
  | undefined => false
  | of_json JNull => false
  | of_json (JBool b) => b
  | of_json (JNumber lx) => negb (number_is_zero lx)
  | of_json (JString s) => negb (String.eqb s EmptyString)
  | of_json (JArray _) => true
  | of_json (JObject _) => true
  end.

(** [a || b] *)
Definition or_else (a b : value) : value := if truthy a then a else b.

(** [v == null], the test behind "is set": neither [null] nor
    [undefined]. *)
Definition nullish (v : value) : bool :=
  match v with
  | undefined | of_json JNull => true
  | _ => false
  end.

(** [v === "literal"] *)
Definition is_string (v : value) (lit : string) : bool :=
  match v with
  | of_json (JString s) => String.eqb s lit
  | _ => false
  end.

End JS.

(** ** [JSON.parse] *)

Module JSON.
Import JS.

Definition is_ws (c : ascii) : bool :=
  let n := N_of_ascii c in
  ((n =? 32) || (n =? 9) || (n =? 10) || (n =? 13))%N.

Fixpoint skip_ws (s : list ascii) : list ascii :=
  match s with
  | c :: r => if is_ws c then skip_ws r else s
  | [] => []
  end.

Definition hex_value (c : ascii) : option N :=
  let n := N_of_ascii c in
  (if (48 <=? n) && (n <=? 57) then Some (n - 48)
   else if (65 <=? n) && (n <=? 70) then Some (n - 55)
   else if (97 <=? n) && (n <=? 102) then Some (n - 87)
   else None)%N.

Definition hex4 (a b c d : ascii) : option N :=
  a ← hex_value a; b ← hex_value b; c ← hex_value c; d ← hex_value d;
  Some (((a * 16 + b) * 16 + c) * 16 + d)%N.

Definition quote : ascii := "034"%char.
Definition backslash : ascii := "092"%char.

(** One character of a string literal: a byte of the text, or the code
    unit of a four-digit hexadecimal escape. *)
Inductive schar :=
| Lit (c : ascii)
| Unit16 (n : N).

(** The body of a string literal, after the opening quote, up to and
    including the closing one. *)
Fixpoint lex_string (s : list ascii) : option (list schar * list ascii) :=
  match s with
  | [] => None
  | c :: r =>
      if Ascii.eqb c quote then Some ([], r)
      else if Ascii.eqb c backslash then
        match r with
        | [] => None
        | e :: r' =>
            let simple (x : ascii) :=
              match lex_string r' with
              | Some (cs, rest) => Some (Lit x :: cs, rest)
              | None => None
              end in
            if Ascii.eqb e quote then simple quote
            else if Ascii.eqb e backslash then simple backslash
            else if Ascii.eqb e "/" then simple "/"%char
            else if Ascii.eqb e "b" then simple "008"%char
            else if Ascii.eqb e "f" then simple "012"%char
            else if Ascii.eqb e "n" then simple "010"%char
            else if Ascii.eqb e "r" then simple "013"%char
            else if Ascii.eqb e "t" then simple "009"%char
            else if Ascii.eqb e "u" then
              match r' with
              | h1 :: h2 :: h3 :: h4 :: r'' =>
                  match hex4 h1 h2 h3 h4, lex_string r'' with
                  | Some n, Some (cs, rest) => Some (Unit16 n :: cs, rest)
                  | _, _ => None
                  end
              | _ => None
              end
            else None
        end
      else if (N_of_ascii c <? 32)%N then None
      else
        match lex_string r with
        | Some (cs, rest) => Some (Lit c :: cs, rest)
        | None => None
        end
  end.

Definition byte (n : N) : ascii := ascii_of_N n.

(** UTF-8 bytes of a code point (a lone surrogate gets the three-byte
    form). *)
Definition utf8 (cp : N) : list ascii :=
  (if cp <? 128 then [byte cp]
   else if cp <? 2048 then
     [byte (192 + cp / 64); byte (128 + cp mod 64)]
   else if cp <? 65536 then
     [byte (224 + cp / 4096); byte (128 + (cp / 64) mod 64);
      byte (128 + cp mod 64)]
   else
     [byte (240 + cp / 262144); byte (128 + (cp / 4096) mod 64);
      byte (128 + (cp / 64) mod 64); byte (128 + cp mod 64)])%N.

Definition is_high (n : N) : bool := ((55296 <=? n) && (n <=? 56319))%N.
Definition is_low (n : N) : bool := ((56320 <=? n) && (n <=? 57343))%N.

(** The escapes become text; a surrogate pair is one code point. *)
Fixpoint unescape (cs : list schar) : list ascii :=
  match cs with
  | [] => []
  | Lit c :: r => c :: unescape r
  | Unit16 hi :: r =>
      match r with
      | Unit16 lo :: r' =>
          if is_high hi && is_low lo
          then utf8 (65536 + (hi - 55296) * 1024 + (lo - 56320))%N
                 ++ unescape r'
          else utf8 hi ++ unescape r
      | _ => utf8 hi ++ unescape r
      end
  end.

Definition parse_string (s : list ascii) : option (string * list ascii) :=
  match lex_string s with
  | Some (cs, rest) => Some (string_of_list_ascii (unescape cs), rest)
  | None => None
  end.

(** The rest of [s] after the character [c], when [s] starts with it. *)
Definition expect (c : ascii) (s : list ascii) : option (list ascii) :=
  match s with
  | x :: r => if Ascii.eqb x c then Some r else None
  | [] => None
  end.

Definition leading_zero (int : list ascii) : bool :=
  match int with
  | d :: _ :: _ => Ascii.eqb d "0"
  | _ => false
  end.

Definition fraction (s : list ascii) : option (list ascii * list ascii) :=
  match expect "." s with
  | Some r =>
      let '(frac, r') := take_digits r in
      match frac with
      | [] => None
      | _ => Some ("."%char :: frac, r')
      end
  | None => Some ([], s)
  end.

Definition exponent (s : list ascii) : option (list ascii * list ascii) :=
  match s with
  | e :: r =>
      if Ascii.eqb e "e" || Ascii.eqb e "E" then
        let '(sg, r) :=
          match expect "+" r with
          | Some r' => (["+"%char], r')
          | None =>
              match expect "-" r with
              | Some r' => (["-"%char], r')
              | None => ([], r)
              end
          end in
        let '(ds, r') := take_digits r in
        match ds with
        | [] => None
        | _ => Some (e :: sg ++ ds, r')
        end
      else Some ([], s)
  | [] => Some ([], s)
  end.

(** A number: an optional minus, an integer part without a leading zero
    (or a lone zero), an optional fraction of at least one digit, an
    optional exponent of at least one digit. *)
Definition lex_number (s : list ascii) : option (list ascii * list ascii) :=
  let '(sign, s) :=
    match expect "-" s with
    | Some r => (["-"%char], r)
    | None => ([], s)
    end in
  let '(int, s) := take_digits s in
  match int with
  | [] => None
  | _ =>
      if leading_zero int then None
      else
        match fraction s with
        | None => None
        | Some (frac, s) =>
            match exponent s with
            | None => None
            | Some (ex, s) => Some (sign ++ int ++ frac ++ ex, s)
            end
        end
  end.

Fixpoint strip_prefix (p s : list ascii) : option (list ascii) :=
  match p, s with
  | [], _ => Some s
  | a :: p', b :: s' => if Ascii.eqb a b then strip_prefix p' s' else None
  | _ :: _, [] => None
  end.

Definition literal (word : string) (v : json) (s : list ascii)
  : option (json * list ascii) :=
  match strip_prefix (list_ascii_of_string word) s with
  | Some rest => Some (v, rest)
  | None => None
  end.

(** A value, its elements and its members; [fuel] bounds the calls, each
    of which is separated from the next but one by a consumed
    character. *)
Fixpoint parse_value (fuel : nat) (s : list ascii)
  : option (json * list ascii) :=
  match fuel with
  | O => None
  | S fuel =>
      match skip_ws s with
      | [] => None
      | c :: r =>
          if Ascii.eqb c "{" then
            match expect "}" (skip_ws r) with
            | Some r' => Some (JObject [], r')
            | None =>
                match parse_members fuel r with
                | Some (ms, r') => Some (JObject ms, r')
                | None => None
                end
            end
          else if Ascii.eqb c "[" then
            match expect "]" (skip_ws r) with
            | Some r' => Some (JArray [], r')
            | None =>
                match parse_elements fuel r with
                | Some (vs, r') => Some (JArray vs, r')
                | None => None
                end
            end
          else if Ascii.eqb c quote then
            match parse_string r with
            | Some (str, r') => Some (JString str, r')
            | None => None
            end
          else if Ascii.eqb c "t" then literal "true" (JBool true) (c :: r)
          else if Ascii.eqb c "f" then literal "false" (JBool false) (c :: r)
          else if Ascii.eqb c "n" then literal "null" JNull (c :: r)
          else
            match lex_number (c :: r) with
            | Some (lx, r') => Some (JNumber (string_of_list_ascii lx), r')
            | None => None
            end
      end
  end
with parse_elements (fuel : nat) (s : list ascii)
  : option (list json * list ascii) :=
  match fuel with
  | O => None
  | S fuel =>
      match parse_value fuel s with
      | None => None
      | Some (v, r) =>
          match skip_ws r with
          | c :: r' =>
              if Ascii.eqb c "," then
                match parse_elements fuel r' with
                | Some (vs, r'') => Some (v :: vs, r'')
                | None => None
                end
              else if Ascii.eqb c "]" then Some ([v], r')
              else None
          | [] => None
          end
      end
  end
with parse_members (fuel : nat) (s : list ascii)
  : option (list (string * json) * list ascii) :=
  match fuel with
  | O => None
  | S fuel =>
      match expect quote (skip_ws s) with
      | None => None
      | Some r =>
          match parse_string r with
          | None => None
          | Some (k, r1) =>
              match expect ":" (skip_ws r1) with
              | None => None
              | Some r2 =>
                  match parse_value fuel r2 with
                  | None => None
                  | Some (v, r3) =>
                      match skip_ws r3 with
                      | c :: r4 =>
                          if Ascii.eqb c "," then
                            match parse_members fuel r4 with
                            | Some (ms, r5) => Some ((k, v) :: ms, r5)
                            | None => None
                            end
                          else if Ascii.eqb c "}" then Some ([(k, v)], r4)
                          else None
                      | [] => None
                      end
                  end
              end
          end
      end
  end.

(** The fuel that is always enough for a text: see
    [parse_value_fuel]. *)
Definition enough (s : list ascii) : nat := 2 * length s + 2.

(** [JSON.parse(text)]; [None] is the SyntaxError. *)
Definition parse (text : string) : option json :=
  let s := list_ascii_of_string text in
  match parse_value (enough s) s with
  | Some (v, rest) =>
      match skip_ws rest with
      | [] => Some v
      | _ => None
      end
  | None => None
  end.

End JSON.


(** ** Effects the two files perform besides updating the React state *)

Inductive toast_kind := plain | success | failure.

Inductive effect :=
| ConsoleError (what : string)
| ConsoleLog (what : string) (arg : JS.value)
| Toast (kind : toast_kind) (text : string)
| ToastStreamError (message : JS.value)
| Post (conversationId : string) (content : JS.value)
| LoadConversations.

(** ** The API client: [api.sendMessageStream] *)

Module Api.
Import JS.

(** A rejection: the [name] of the thrown error is what the handlers
    look at. *)
Record exn := { name : string; message : string }.

Definition AbortError : exn :=
  {| name := "AbortError"; message := "The user aborted a request." |}.

(** How [reader.read()] stops delivering: the channel closes
    ([done]), or the read rejects. *)
Inductive ending :=
| Closed
| ReadRejects (e : exn).

(** The response body as the loop sees it: the text of every delivered
    chunk (what [decoder.decode(value)] returns for it), in order, then
    how the reads end. *)
Record body := { chunks : list string; end_of_body : ending }.

(** What [fetch] does with the request. *)
Inductive fetched :=
| FetchRejects (e : exn)
| Responds (ok : bool) (b : body).

Definition newline : ascii := "010"%char.

(** [text.split("\n")] *)
Fixpoint split (text : string) : list string :=
  match text with
  | EmptyString => [EmptyString]
  | String c rest =>
      if Ascii.eqb c newline then EmptyString :: split rest
      else
        match split rest with
        | line :: lines => String c line :: lines
        | [] => [String c EmptyString]
        end
  end.

(** [line.slice(n)] *)
Fixpoint slice (n : nat) (line : string) : string :=
  match n, line with
  | O, _ => line
  | S n', String _ rest => slice n' rest
  | S _, EmptyString => EmptyString
  end.

(** [line.startsWith(p)] *)
Definition startsWith (line p : string) : bool := String.prefix p line.

Section Stream.
Context {St : Type}.
(** The callback, and the effects of the client itself. *)
Variable onEvent : value -> json -> St -> St.
Variable perform : effect -> St -> St.

Definition parse_failure : effect :=
  ConsoleError "Failed to parse SSE event:".

(** The body of the [try]: [onEvent(event.type, event)]; reading
    [type] off [null] throws into the same [catch] as a syntax
    error. *)
Definition dispatch (event : json) (st : St) : St :=
  match get event "type" with
  | Some type => onEvent type event st
  | None => perform parse_failure st
  end.

Definition handle_line (line : string) (st : St) : St :=
  if startsWith line "data: " then
    let data := slice 6 line in
    match JSON.parse data with
    | Some event => dispatch event st
    | None => perform parse_failure st
    end
  else st.

(** One turn of the [while]: the chunk is cut into lines on its own;
    nothing of it is kept for the next read. *)
Definition handle_chunk (chunk : string) (st : St) : St :=
  fold_left (fun st line => handle_line line st) (split chunk) st.

Definition aborted_event : json :=
  JObject [("message", JString "Stream aborted by user")].

(** The [try { while (true) ... } catch (e)] around the reads; the
    second component is the error thrown to the caller, if any. *)
Definition pump (b : body) (st : St) : St * option exn :=
  let st := fold_left (fun st chunk => handle_chunk chunk st) (chunks b) st in
  match end_of_body b with
  | Closed => (st, None)
  | ReadRejects e =>
      if String.eqb (name e) "AbortError"
      then (onEvent (of_json (JString "aborted")) aborted_event st, None)
      else (st, Some e)
  end.

Definition sendMessageStream (conversationId : string) (content : value)
    (net : fetched) (st : St) : St * option exn :=
  let st := perform (Post conversationId content) st in
  match net with
  | FetchRejects e => (st, Some e)
  | Responds ok b =>
      if negb ok
      then (st, Some {| name := "Error"; message := "Failed to send message" |})
      else pump b st
  end.

End Stream.

(** *** The decoder on its own: the calls it makes, in order *)

Inductive output :=
| Emitted (type : value) (event : json)
| Performed (e : effect).

Definition record_event (type : value) (event : json) (tr : list output) :=
  tr ++ [Emitted type event].
Definition record_effect (e : effect) (tr : list output) :=
  tr ++ [Performed e].

Definition line_trace (line : string) : list output :=
  handle_line record_event record_effect line [].

Definition chunk_trace (chunk : string) : list output :=
  handle_chunk record_event record_effect chunk [].

(** Everything the decoder does on a body, and what it throws. *)
Definition decode (b : body) : list output * option exn :=
  pump record_event record_effect b [].



End Api.

(** ** App.jsx: the conversation state and the handlers *)

Module Loading.
(** [lastMsg.loading]: one flag per stage, and the models announced by
    [stage1_start] ([undefined] until then). *)
Record t := {
  stage1 : bool;
  stage2 : bool;
  stage3 : bool;
  simple : bool;
  stage1Models : JS.value;
}.

Definition set_stage1 (b : bool) (l : t) : t :=
  {| stage1 := b; stage2 := stage2 l; stage3 := stage3 l;
     simple := simple l; stage1Models := stage1Models l |}.
Definition set_stage2 (b : bool) (l : t) : t :=
  {| stage1 := stage1 l; stage2 := b; stage3 := stage3 l;
     simple := simple l; stage1Models := stage1Models l |}.
Definition set_stage3 (b : bool) (l : t) : t :=
  {| stage1 := stage1 l; stage2 := stage2 l; stage3 := b;
     simple := simple l; stage1Models := stage1Models l |}.
Definition set_simple (b : bool) (l : t) : t :=
  {| stage1 := stage1 l; stage2 := stage2 l; stage3 := stage3 l;
     simple := b; stage1Models := stage1Models l |}.
Definition set_stage1Models (v : JS.value) (l : t) : t :=
  {| stage1 := stage1 l; stage2 := stage2 l; stage3 := stage3 l;
     simple := simple l; stage1Models := v |}.

Definition all_clear (l : t) : Prop :=
  stage1 l = false /\ stage2 l = false /\ stage3 l = false /\ simple l = false.
End Loading.

Module App.
Import JS.

(** A message object, seen through the properties the handlers touch.
    A user message has only [role] and [content]; a message that came
    from the server has no [loading] object. *)
Record Message := {
  role : string;
  content : value;
  stage1 : value;
  stage2 : value;
  stage3 : value;
  simpleResponse : value;
  metadata : value;
  loading : option Loading.t;
}.

Definition set_stage1 (v : value) (m : Message) : Message :=
  {| role := role m; content := content m; stage1 := v; stage2 := stage2 m;
     stage3 := stage3 m; simpleResponse := simpleResponse m;
     metadata := metadata m; loading := loading m |}.
Definition set_stage2 (v : value) (m : Message) : Message :=
  {| role := role m; content := content m; stage1 := stage1 m; stage2 := v;
     stage3 := stage3 m; simpleResponse := simpleResponse m;
     metadata := metadata m; loading := loading m |}.
Definition set_stage3 (v : value) (m : Message) : Message :=
  {| role := role m; content := content m; stage1 := stage1 m;
     stage2 := stage2 m; stage3 := v; simpleResponse := simpleResponse m;
     metadata := metadata m; loading := loading m |}.
Definition set_simpleResponse (v : value) (m : Message) : Message :=
  {| role := role m; content := content m; stage1 := stage1 m;
     stage2 := stage2 m; stage3 := stage3 m; simpleResponse := v;
     metadata := metadata m; loading := loading m |}.
Definition set_metadata (v : value) (m : Message) : Message :=
  {| role := role m; content := content m; stage1 := stage1 m;
     stage2 := stage2 m; stage3 := stage3 m;
     simpleResponse := simpleResponse m; metadata := v;
     loading := loading m |}.
Definition set_loading (l : Loading.t) (m : Message) : Message :=
  {| role := role m; content := content m; stage1 := stage1 m;
     stage2 := stage2 m; stage3 := stage3 m;
     simpleResponse := simpleResponse m; metadata := metadata m;
     loading := Some l |}.

(** [{ role: "user", content }] *)
Definition userMessage (content : value) : Message :=
  {| role := "user"; content := content; stage1 := undefined;
     stage2 := undefined; stage3 := undefined; simpleResponse := undefined;
     metadata := undefined; loading := None |}.

(** The partial assistant message of [handleSendMessage]. *)
Definition assistantMessage : Message :=
  {| role := "assistant"; content := undefined; stage1 := null;
     stage2 := null; stage3 := null; simpleResponse := null;
     metadata := null;
     loading := Some {| Loading.stage1 := false; Loading.stage2 := false;
                        Loading.stage3 := false; Loading.simple := false;
                        Loading.stage1Models := undefined |} |}.

Record Conversation := { conv_id : string; messages : list Message }.

(** The component state: the [useState] cells the handlers write, the
    [abortControllerRef] (does it hold a controller?), and the effects
    performed so far. *)
Record State := {
  currentConversationId : option string;
  currentConversation : option Conversation;
  isLoading : bool;
  abortControllerRef : bool;
  effects : list effect;
}.

Definition perform (e : effect) (st : State) : State :=
  {| currentConversationId := currentConversationId st;
     currentConversation := currentConversation st;
     isLoading := isLoading st;
     abortControllerRef := abortControllerRef st;
     effects := effects st ++ [e] |}.

Definition setIsLoading (b : bool) (st : State) : State :=
  {| currentConversationId := currentConversationId st;
     currentConversation := currentConversation st;
     isLoading := b;
     abortControllerRef := abortControllerRef st;
     effects := effects st |}.

Definition set_abortControllerRef (b : bool) (st : State) : State :=
  {| currentConversationId := currentConversationId st;
     currentConversation := currentConversation st;
     isLoading := isLoading st;
     abortControllerRef := b;
     effects := effects st |}.

(** [setCurrentConversation((prev) => ...)]. Every updater of the file
    starts by reading [prev.messages], a TypeError when [prev] is
    [null]; an updater that throws takes the component down: [None].
    Updaters are applied in the order they were queued, so they are
    run here at the call. *)
Definition setCurrentConversation
    (updater : Conversation -> option Conversation) (st : State)
  : option State :=
  prev ← currentConversation st;
  next ← updater prev;
  Some {| currentConversationId := currentConversationId st;
          currentConversation := Some next;
          isLoading := isLoading st;
          abortControllerRef := abortControllerRef st;
          effects := effects st |}.

(** [{ ...prev, messages }] *)
Definition with_messages (prev : Conversation) (ms : list Message)
  : Conversation :=
  {| conv_id := conv_id prev; messages := ms |}.

(** [{ ...prev, messages: [...prev.messages, m] }] *)
Definition append (m : Message) (prev : Conversation) : option Conversation :=
  Some (with_messages prev (messages prev ++ [m])).

(** [array.slice(0, end)] *)
Definition slice0 {A} (l : list A) (end_ : Z) : list A :=
  let len := Z.of_nat (length l) in
  let e := if end_ <? 0 then Z.max (len + end_) 0 else Z.min end_ len in
  take (Z.to_nat e) l.

(** The shape shared by the stream updaters:
    [const messages = [...prev.messages];
     const lastMsg = messages[messages.length - 1];
     ... assignments to lastMsg ...;
     return { ...prev, messages }].
    [lastMsg] is the object the array holds, so the assignments show
    in the new array at the last position; with an empty array
    [lastMsg] is [undefined] and the first assignment throws. *)
Definition updateLast (assign : Message -> option Message)
    (prev : Conversation) : option Conversation :=
  lastMsg ← last (messages prev);
  lastMsg' ← assign lastMsg;
  Some (with_messages prev
          (<[pred (length (messages prev)) := lastMsg']> (messages prev))).

(** [lastMsg.loading.flag = b]: a TypeError when the message has no
    [loading] object. *)
Definition assign_loading (f : Loading.t -> Loading.t) (lastMsg : Message)
  : option Message :=
  l ← loading lastMsg; Some (set_loading (f l) lastMsg).

(** [if (lastMsg.loading) { ... }] *)
Definition assign_loading_if_present (f : Loading.t -> Loading.t)
    (lastMsg : Message) : option Message :=
  match loading lastMsg with
  | Some l => Some (set_loading (f l) lastMsg)
  | None => Some lastMsg
  end.

Definition empty_array : value := of_json (JArray []).

(** The callback handed to [api.sendMessageStream]. The client has
    read [event.type] before the call, so [event] is never [null]
    here. No two positions of [messages] hold the same object (a
    message is a fresh literal or comes from a parsed response), so
    writing the last message changes no other. *)
Definition onEvent (eventType : value) (event : json) (st : State)
  : option State :=
  if is_string eventType "simple_mode_start" then
    st ← setCurrentConversation
           (updateLast (assign_loading (Loading.set_simple true))) st;
    Some (perform (Toast plain "Tekli LLM Modu - Başkan yanıt veriyor...") st)
  else if is_string eventType "simple_mode_complete" then
    setCurrentConversation
      (updateLast (fun lastMsg =>
         data ← get event "data";
         assign_loading (Loading.set_simple false)
           (set_simpleResponse data lastMsg))) st
  else if is_string eventType "stage1_start" then
    setCurrentConversation
      (updateLast (fun lastMsg =>
         lastMsg ← assign_loading (Loading.set_stage1 true) lastMsg;
         models ← get event "models";
         assign_loading
           (Loading.set_stage1Models (or_else models empty_array))
           lastMsg)) st
  else if is_string eventType "stage1_complete" then
    setCurrentConversation
      (updateLast (fun lastMsg =>
         data ← get event "data";
         assign_loading (Loading.set_stage1 false)
           (set_stage1 data lastMsg))) st
  else if is_string eventType "stage2_start" then
    setCurrentConversation
      (updateLast (assign_loading (Loading.set_stage2 true))) st
  else if is_string eventType "stage2_complete" then
    setCurrentConversation
      (updateLast (fun lastMsg =>
         data ← get event "data";
         metadata ← get event "metadata";
         assign_loading (Loading.set_stage2 false)
           (set_metadata metadata (set_stage2 data lastMsg)))) st
  else if is_string eventType "stage3_start" then
    setCurrentConversation
      (updateLast (assign_loading (Loading.set_stage3 true))) st
  else if is_string eventType "stage3_complete" then
    setCurrentConversation
      (updateLast (fun lastMsg =>
         data ← get event "data";
         assign_loading (Loading.set_stage3 false)
           (set_stage3 data lastMsg))) st
  else if is_string eventType "title_complete" then
    Some (perform LoadConversations st)
  else if is_string eventType "complete" then
    Some (set_abortControllerRef false
            (setIsLoading false
               (perform (Toast success "Konsey cevabı tamamlandı")
                  (perform LoadConversations st))))
  else if is_string eventType "error" then
    message ← get event "message";
    Some (set_abortControllerRef false
            (setIsLoading false
               (perform (ToastStreamError message)
                  (perform (ConsoleError "Stream error:") st))))
  else if is_string eventType "aborted" then
    setCurrentConversation
      (updateLast (assign_loading_if_present (fun l =>
         Loading.set_simple false
           (Loading.set_stage3 false
              (Loading.set_stage2 false
                 (Loading.set_stage1 false l)))))) st
  else if is_string eventType "cancelled" then
    st ← setCurrentConversation
           (updateLast (assign_loading_if_present (fun l =>
              Loading.set_stage3 false
                (Loading.set_stage2 false
                   (Loading.set_stage1 false l))))) st;
    Some (set_abortControllerRef false (setIsLoading false st))
  else
    Some (perform (ConsoleLog "Unknown event type:" eventType) st).

(** [!currentConversationId] is false for a non-empty id. *)
Definition conversation_selected (st : State) : option string :=
  match currentConversationId st with
  | Some cid => if String.eqb cid EmptyString then None else Some cid
  | None => None
  end.

(** The callback and the client's effects over a component that may
    already be down. *)
Definition onEvent' (eventType : value) (event : json) (st : option State)
  : option State := st ≫= onEvent eventType event.
Definition perform' (e : effect) (st : option State) : option State :=
  perform e <$> st.

Definition handleSendMessage (content : value) (net : Api.fetched)
    (st : State) : option State :=
  match conversation_selected st with
  | None => Some st
  | Some conversationId =>
      let st := setIsLoading true (set_abortControllerRef true st) in
      let st := setCurrentConversation (append (userMessage content)) st in
      let st := st ≫= setCurrentConversation (append assistantMessage) in
      let '(st, thrown) :=
        Api.sendMessageStream onEvent' perform' conversationId content net st in
      match thrown with
      | None => st
      | Some error =>
          if String.eqb (Api.name error) "AbortError" then st
          else
            st ← st;
            let st := perform (ConsoleError "Failed to send message:") st in
            let st :=
              perform (Toast failure
                "Mesaj gönderilemedi. Lütfen tekrar deneyin.") st in
            st ← setCurrentConversation
                   (fun prev =>
                      Some (with_messages prev (slice0 (messages prev) (-2))))
                   st;
            Some (set_abortControllerRef false (setIsLoading false st))
      end
  end.

Definition is_user (m : option Message) : bool :=
  match m with
  | Some m => String.eqb (role m) "user"
  | None => false
  end.

(** The walk back of [handleRegenerateMessage], entered with
    [userMessageIndex = n - 1 >= 0]:
    [while (userMessageIndex >= 0 &&
            messages[userMessageIndex]?.role !== "user")
       userMessageIndex--]. *)
Fixpoint walk_back (messages : list Message) (n : nat) : Z :=
  match n with
  | O => -1
  | S k => if is_user (messages !! k) then Z.of_nat k
           else walk_back messages k
  end.

Definition findUserMessageIndex (messages : list Message) (messageIndex : Z)
  : Z :=
  let userMessageIndex := messageIndex - 1 in
  if userMessageIndex <? 0 then userMessageIndex
  else walk_back messages (Z.to_nat messageIndex).

Definition handleRegenerateMessage (messageIndex : Z) (net : Api.fetched)
    (st : State) : option State :=
  match conversation_selected st, currentConversation st with
  | Some _, Some conversation =>
      let messages := messages conversation in
      let userMessageIndex := findUserMessageIndex messages messageIndex in
      if userMessageIndex <? 0
      then Some (perform (Toast failure "Kullanıcı mesajı bulunamadı") st)
      else
        userContent ← content <$> (messages !! Z.to_nat userMessageIndex);
        st ← setCurrentConversation
               (fun prev =>
                  Some (with_messages prev
                          (slice0 (App.messages prev) messageIndex))) st;
        let st := perform (Toast plain "Yanıt yeniden oluşturuluyor...") st in
        handleSendMessage userContent net st
  | _, _ => Some st
  end.

(** The events of a decoded channel folded into the component, one
    after the other. *)
Definition deliver (events : list json) (st : option State) : option State :=
  fold_left (fun st event => Api.dispatch onEvent' perform' event st) events st.

End App.

(** ** Vocabulary of the statements *)

Module Channel.
Import JS Api.

Fixpoint has_newline (s : string) : bool :=
  match s with
  | EmptyString => false
  | String c rest => Ascii.eqb c newline || has_newline rest
  end.

(** The text of a chunk that carries the given lines. *)
Definition join (lines : list string) : string :=
  String.concat (String newline EmptyString) lines.

(** What the decoder does on the chunks alone. *)
Definition trace (chunks : list string) : list output :=
  fst (decode {| chunks := chunks; end_of_body := Closed |}).

(** The error [pump] lets through for an ending. *)
Definition thrown (e : ending) : option exn :=
  match e with
  | Closed => None
  | ReadRejects e => if String.eqb (name e) "AbortError" then None else Some e
  end.

(** The error [sendMessageStream] rejects with, if any. *)
Definition rejection (net : fetched) : option exn :=
  match net with
  | FetchRejects e => Some e
  | Responds false _ =>
      Some {| name := "Error"; message := "Failed to send message" |}
  | Responds true b => thrown (end_of_body b)
  end.

(** Does the request end in an error other than an abort? *)
Definition fails (net : fetched) : bool :=
  match rejection net with
  | Some e => negb (String.eqb (name e) "AbortError")
  | None => false
  end.

(** Replaces every apostrophe by a double quote, to write JSON text. *)
Fixpoint quoted (s : string) : string :=
  match s with
  | EmptyString => EmptyString
  | String c rest =>
      String (if Ascii.eqb c "'" then JSON.quote else c) (quoted rest)
  end.

End Channel.

Module Turn.
Import JS App.

Definition type_is (name : string) (event : json) : bool :=
  match get event "type" with
  | Some type => is_string type name
  | None => false
  end.

(** The event carries a payload under [data]. *)
Definition has_data (event : json) : bool :=
  match get event "data" with
  | Some data => negb (nullish data)
  | None => false
  end.

(** The types the [switch] of [onEvent] has a case for. *)
Definition recognised (type : value) : bool :=
  is_string type "simple_mode_start" || is_string type "simple_mode_complete"
  || is_string type "stage1_start" || is_string type "stage1_complete"
  || is_string type "stage2_start" || is_string type "stage2_complete"
  || is_string type "stage3_start" || is_string type "stage3_complete"
  || is_string type "title_complete" || is_string type "complete"
  || is_string type "error" || is_string type "aborted"
  || is_string type "cancelled".

(** Where a staged turn stands. *)
Inductive phase :=
| Fresh
| Stage1Loading | Stage1Done
| Stage2Loading | Stage2Done
| Stage3Loading | Stage3Done
| Completed.

(** The documented stage order: each stage is started once the one
    before it is complete, and completed with its data once started;
    [complete] closes a turn whose third stage is complete;
    [title_complete] may come at any point. *)
Definition next (p : phase) (event : json) : option phase :=
  if type_is "title_complete" event then Some p
  else
    match p with
    | Fresh => if type_is "stage1_start" event then Some Stage1Loading else None
    | Stage1Loading =>
        if type_is "stage1_complete" event && has_data event
        then Some Stage1Done else None
    | Stage1Done => if type_is "stage2_start" event then Some Stage2Loading else None
    | Stage2Loading =>
        if type_is "stage2_complete" event && has_data event
        then Some Stage2Done else None
    | Stage2Done => if type_is "stage3_start" event then Some Stage3Loading else None
    | Stage3Loading =>
        if type_is "stage3_complete" event && has_data event
        then Some Stage3Done else None
    | Stage3Done => if type_is "complete" event then Some Completed else None
    | Completed => None
    end.

Fixpoint follow (p : phase) (events : list json) : option phase :=
  match events with
  | [] => Some p
  | event :: events => p' ← next p event; follow p' events
  end.

(** A valid staged sequence. *)
Definition in_stage_order (events : list json) : Prop :=
  is_Some (follow Fresh events).

Definition ends_in (events : list json) (name : string) : Prop :=
  exists event, last events = Some event /\ type_is name event = true.

(** The message the stream events are folded into. *)
Definition lastMessage (st : State) : option Message :=
  conversation ← currentConversation st; last (messages conversation).

(** The state with another conversation in [currentConversation]. *)
Definition set_currentConversation (c : Conversation) (st : State) : State :=
  {| currentConversationId := currentConversationId st;
     currentConversation := Some c;
     isLoading := isLoading st;
     abortControllerRef := abortControllerRef st;
     effects := effects st |}.

Definition forget_effects (st : State) : State :=
  {| currentConversationId := currentConversationId st;
     currentConversation := currentConversation st;
     isLoading := isLoading st;
     abortControllerRef := abortControllerRef st;
     effects := [] |}.

(** A turn is under way on top of [base]: the conversation ends in a
    message that has a [loading] object. *)
Definition pending_on (conv : Conversation) (base : list Message)
    (st : State) : Prop :=
  exists m l,
    currentConversation st = Some (with_messages conv (base ++ [m])) /\
    loading m = Some l.

Definition is_loading (p : phase) (stage : nat) : bool :=
  match p, stage with
  | Stage1Loading, 1%nat | Stage2Loading, 2%nat | Stage3Loading, 3%nat => true
  | _, _ => false
  end.

Definition is_done (p : phase) (stage : nat) : bool :=
  match p, stage with
  | (Stage1Done | Stage2Loading | Stage2Done | Stage3Loading | Stage3Done
     | Completed), 1%nat => true
  | (Stage2Done | Stage3Loading | Stage3Done | Completed), 2%nat => true
  | (Stage3Done | Completed), 3%nat => true
  | _, _ => false
  end.

(** What the pending message looks like in each phase. *)
Definition shaped (p : phase) (m : Message) : Prop :=
  exists l,
    loading m = Some l /\
    Loading.simple l = false /\
    Loading.stage1 l = is_loading p 1 /\
    Loading.stage2 l = is_loading p 2 /\
    Loading.stage3 l = is_loading p 3 /\
    (is_done p 1 = true -> nullish (stage1 m) = false) /\
    (is_done p 2 = true -> nullish (stage2 m) = false) /\
    (is_done p 3 = true -> nullish (stage3 m) = false) /\
    nullish (simpleResponse m) = true.

(** The messages of the conversation, when the component is up and a
    conversation is loaded. *)
Definition messages_of (st : option State) : option (list Message) :=
  st ≫= fun st => messages <$> currentConversation st.

(** The nearest user message before position [i] is at [k]. *)
Definition nearest_user_before (messages : list Message) (i : Z) (k : nat)
    (u : Message) : Prop :=
  Z.of_nat k < i /\ messages !! k = Some u /\ role u = "user" /\
  forall (j : nat) (m : Message),
    (k < j)%nat -> Z.of_nat j < i -> messages !! j = Some m -> role m <> "user".

Definition no_user_before (messages : list Message) (i : Z) : Prop :=
  forall (j : nat) (m : Message),
    Z.of_nat j < i -> messages !! j = Some m -> role m <> "user".

(** Regeneration in the words of section 8 of the specification: the
    conversation is cut to the length [k] of the prefix before the user
    message, and a new turn is issued with its content. *)
Definition regenerate_cutting_at_user (messageIndex : Z) (net : Api.fetched)
    (st : State) : option State :=
  match conversation_selected st, currentConversation st with
  | Some _, Some conversation =>
      let k := findUserMessageIndex (messages conversation) messageIndex in
      if k <? 0
      then Some (perform (Toast failure "Kullanıcı mesajı bulunamadı") st)
      else
        userContent ← content <$> (messages conversation !! Z.to_nat k);
        st ← setCurrentConversation
               (fun prev => Some (with_messages prev (slice0 (messages prev) k)))
               st;
        let st := perform (Toast plain "Yanıt yeniden oluşturuluyor...") st in
        handleSendMessage userContent net st
  | _, _ => Some st
  end.

End Turn.

(** ** Concrete channels and conversations *)

Module Sample.
Import JS Api App Channel Turn.

Definition event_of (text : string) : json :=
  default JNull (JSON.parse (quoted text)).

Definition stage1_start : json := event_of "{'type':'stage1_start','models':['a','b']}".
Definition stage1_complete : json := event_of "{'type':'stage1_complete','data':[{'model':'a','response':'one'}]}".
Definition stage2_start : json := event_of "{'type':'stage2_start'}".
Definition stage2_complete : json := event_of "{'type':'stage2_complete','data':[{'model':'a','ranking':'A'}],'metadata':{'label_to_model':{}}}".
Definition stage3_start : json := event_of "{'type':'stage3_start'}".
Definition stage3_complete : json := event_of "{'type':'stage3_complete','data':{'model':'c','response':'final'}}".
Definition title_complete : json := event_of "{'type':'title_complete','data':{'title':'t'}}".
Definition complete : json := event_of "{'type':'complete'}".
Definition simple_mode_start : json := event_of "{'type':'simple_mode_start'}".
Definition simple_mode_complete : json := event_of "{'type':'simple_mode_complete','data':{'display_name':'c','response':'hello'}}".
Definition cancelled : json := event_of "{'type':'cancelled'}".
Definition foo_bar : json := event_of "{'type':'foo_bar'}".

Definition staged_turn : list json :=
  [stage1_start; stage1_complete; title_complete; stage2_start;
   stage2_complete; stage3_start; stage3_complete; complete].

Definition hi : value := of_json (JString "hi").

(** A finished staged answer, as the server returns it. *)
Definition answered : Message :=
  {| role := "assistant"; content := undefined;
     stage1 := of_json (JArray []); stage2 := of_json (JArray []);
     stage3 := of_json (JObject [("response", JString "final")]);
     simpleResponse := undefined; metadata := undefined; loading := None |}.

Definition state_with (ms : list Message) : State :=
  {| currentConversationId := Some "c1";
     currentConversation := Some {| conv_id := "c1"; messages := ms |};
     isLoading := false; abortControllerRef := false; effects := [] |}.

(** A turn under way: the user message and the pending message. *)
Definition sending : State :=
  {| currentConversationId := Some "c1";
     currentConversation :=
       Some {| conv_id := "c1";
               messages := [userMessage hi; assistantMessage] |};
     isLoading := true; abortControllerRef := true; effects := [] |}.

(** The same turn once [stage1_start] has been applied. *)
Definition in_stage1 : State :=
  {| currentConversationId := Some "c1";
     currentConversation :=
       Some {| conv_id := "c1";
               messages :=
                 [userMessage hi;
                  set_loading
                    {| Loading.stage1 := true; Loading.stage2 := false;
                       Loading.stage3 := false; Loading.simple := false;
                       Loading.stage1Models :=
                         of_json (JArray [JString "a"; JString "b"]) |}
                    assistantMessage] |};
     isLoading := true; abortControllerRef := true; effects := [] |}.

(** The pending message at the end of a staged turn: it keeps its
    [loading] object, all flags off. *)
Definition finished : Message :=
  {| role := "assistant"; content := undefined;
     stage1 := of_json (JArray [JObject [("model", JString "a")]]);
     stage2 := of_json (JArray [JObject [("model", JString "a")]]);
     stage3 := of_json (JObject [("response", JString "final")]);
     simpleResponse := null; metadata := of_json (JObject []);
     loading := Some {| Loading.stage1 := false; Loading.stage2 := false;
                        Loading.stage3 := false; Loading.simple := false;
                        Loading.stage1Models := of_json (JArray []) |} |}.

(** A late [stage1_complete], applied to a conversation whose last
    message is a finished one. *)
Definition late_event : json :=
  JObject [("type", JString "stage1_complete"); ("data", JString "late")].
Definition after_late_event : State :=
  default (state_with [])
    (onEvent (of_json (JString "stage1_complete")) late_event
       (state_with [userMessage hi; finished])).

Definition network_error : exn :=
  {| name := "TypeError"; message := "network error" |}.

(** The record of the example, whole and cut in two. *)
Definition whole_record : string :=
  quoted "data: {'type':'stage1_start'}" +:+ String newline EmptyString.

End Sample.

(** ** The decoder seen from any callback *)

Module Wire.
Import JS Api.

Section Replay.
Context {St : Type}.
Variable onEvent : value -> json -> St -> St.
Variable perform : effect -> St -> St.

(** One call of the client, made again on a state. *)
Definition replay_output (st : St) (o : output) : St :=
  match o with
  | Emitted type event => onEvent type event st
  | Performed e => perform e st
  end.

Definition replay (tr : list output) (st : St) : St :=
  fold_left replay_output tr st.

End Replay.

(** A server-sent event: one [data: ] line and a blank line. *)
Definition frame (payload : string) : string :=
  "data: " +:+ payload +:+ String newline (String newline EmptyString).

(** The text of a chunk that carries the frames of the payloads. *)
Definition frames (payloads : list string) : string :=
  fold_right (fun payload rest => frame payload +:+ rest) EmptyString payloads.

(** A record of the channel: its payload, and the event and the type
    the payload decodes to. *)
Record record := { payload : string; event : json; type : value }.

Definition well_formed (r : record) : Prop :=
  Channel.has_newline (payload r) = false /\
  JSON.parse (payload r) = Some (event r) /\
  get (event r) "type" = Some (type r).

Definition emitted (r : record) : output := Emitted (type r) (event r).

(** The types that close a turn. *)
Definition closing (type : value) : bool :=
  is_string type "complete" || is_string type "error"
  || is_string type "cancelled".


End Wire.

(** ** More vocabulary for sending *)

Module Sending.
Import JS Api App Channel Turn.

(** The state [handleSendMessage] hands to the client: loading, with an
    abort controller, the user message and the pending message appended,
    the request issued. *)
Definition opened (conversationId : string) (content : value)
    (conversation : Conversation) (st : State) : State :=
  perform (Post conversationId content)
    (set_currentConversation
       (with_messages conversation
          ((messages conversation ++ [userMessage content])
             ++ [assistantMessage]))
       (setIsLoading true (set_abortControllerRef true st))).

(** The [catch] block of [handleSendMessage], for an error that is not
    an abort. *)
Definition rollback (st : State) : option State :=
  let st := perform (ConsoleError "Failed to send message:") st in
  let st :=
    perform (Toast failure "Mesaj gönderilemedi. Lütfen tekrar deneyin.") st in
  st ← setCurrentConversation
         (fun prev => Some (with_messages prev (slice0 (messages prev) (-2))))
         st;
  Some (set_abortControllerRef false (setIsLoading false st)).

(** What the decoder does for a request: nothing unless the response
    is OK. *)
Definition stream_trace (net : fetched) : list output :=
  match net with
  | Responds true b => fst (decode b)
  | _ => []
  end.

(** The events whose updater writes [lastMsg.loading.flag]. *)
Definition needs_loading (type : value) : bool :=
  is_string type "simple_mode_start" || is_string type "simple_mode_complete"
  || is_string type "stage1_start" || is_string type "stage1_complete"
  || is_string type "stage2_start" || is_string type "stage2_complete"
  || is_string type "stage3_start" || is_string type "stage3_complete".

(** The events whose updater reads [prev.messages] and the last
    message. *)
Definition writes_conversation (type : value) : bool :=
  needs_loading type || is_string type "aborted"
  || is_string type "cancelled".

(** There is no message with a [loading] object at the end of the
    conversation: no conversation is loaded, or it is empty, or its last
    message has none. *)
Definition no_pending_message (st : State) : Prop :=
  match currentConversation st with
  | None => True
  | Some conversation =>
      match last (messages conversation) with
      | None => True
      | Some lastMsg => loading lastMsg = None
      end
  end.

(** What a trace of the decoder is made of: events that are not
    [null], and parse diagnostics. *)
Definition decoded (o : output) : Prop :=
  match o with
  | Emitted _ event => event <> JNull
  | Performed e => e = parse_failure
  end.

Definition is_post (e : effect) : bool :=
  match e with
  | Post _ _ => true
  | _ => false
  end.

(** The requests among the effects. *)
Definition requests (st : State) : list effect :=
  filter (fun e => is_post e = true) (effects st).

End Sending.

(** ** App.jsx: stopping a turn *)

Module Stop.
Import JS Api App.

(** What the network does with the cancel call: [fetch] rejects, or it
    responds, with a body that parses as JSON or one that does not. *)
Inductive cancel_net :=
| CancelFetchRejects
| CancelResponds (parsed : option json).

(** [api.cancelRequest]: its answer ([None] when the call rejects) and
    what it logs. A [fetch] that rejects is caught and answered with
    [{ success: false }]. [return response.json()] leaves the [try]
    before the body is read, so a body that does not parse rejects the
    call; the status of the response is not looked at. *)
Definition cancelRequest (net : cancel_net) : option json * list effect :=
  match net with
  | CancelFetchRejects =>
      (Some (JObject [("success", JBool false)]),
       [ConsoleError "Failed to cancel request:"])
  | CancelResponds (Some answer) => (Some answer, [])
  | CancelResponds None => (None, [])
  end.

(** What a click on the stop button did: the state it leaves, whether
    the signal of the running request was aborted, and the conversation
    a cancel request was sent for. *)
Record stopped := {
  state : State;
  aborted : bool;
  cancel_sent : option string;
}.

(** [handleStopGeneration]; when the awaited cancel call rejects, the
    statements after it do not run. *)
Definition handleStopGeneration (net : cancel_net) (st : State) : stopped :=
  if abortControllerRef st then
    let st := set_abortControllerRef false st in
    match conversation_selected st with
    | Some conversationId =>
        let '(answer, logged) := cancelRequest net in
        let st := fold_left (fun st e => perform e st) logged st in
        match answer with
        | Some _ =>
            {| state := perform (Toast plain "Yanıt durduruldu")
                          (setIsLoading false st);
               aborted := true; cancel_sent := Some conversationId |}
        | None =>
            {| state := st; aborted := true;
               cancel_sent := Some conversationId |}
        end
    | None =>
        {| state := perform (Toast plain "Yanıt durduruldu")
                      (setIsLoading false st);
           aborted := true; cancel_sent := None |}
    end
  else {| state := st; aborted := false; cancel_sent := None |}.

(** The read that was pending when the signal was aborted. *)
Definition aborted_read : body :=
  {| chunks := []; end_of_body := ReadRejects AbortError |}.

End Stop.

(** ** App.jsx: the list of conversations *)

Module Shell.
Import JS Api App.

(** An entry of the sidebar. *)
Record Summary := {
  summary_id : string;
  created_at : value;
  message_count : value;
  title : value;
}.

(** The component with its list of conversations. *)
Record t := { conversations : list Summary; app : State }.

Definition setCurrentConversationId (id : option string) (st : State) : State :=
  {| currentConversationId := id;
     currentConversation := currentConversation st;
     isLoading := isLoading st;
     abortControllerRef := abortControllerRef st;
     effects := effects st |}.

(** [setCurrentConversation(value)], with a value instead of an
    updater. *)
Definition putCurrentConversation (c : option Conversation) (st : State)
  : State :=
  {| currentConversationId := currentConversationId st;
     currentConversation := c;
     isLoading := isLoading st;
     abortControllerRef := abortControllerRef st;
     effects := effects st |}.

(** What [api.createConversation] gives: it throws (the request fails,
    the status is not OK, the body does not parse), or it returns the
    new conversation, of which the handler reads [id] (a string) and
    [created_at]. *)
Inductive created :=
| CreateFails
| Created (id : string) (created_at : value).

Definition handleNewConversation (net : created) (sh : t) : t :=
  match net with
  | Created id created_at =>
      {| conversations :=
           {| summary_id := id; created_at := created_at;
              message_count := of_json (JNumber "0"); title := undefined |}
             :: conversations sh;
         app := perform (Toast success "Yeni sohbet oluşturuldu")
                  (setCurrentConversationId (Some id) (app sh)) |}
  | CreateFails =>
      {| conversations := conversations sh;
         app := perform (Toast failure "Sohbet oluşturulamadı.")
                  (perform (ConsoleError "Failed to create conversation:")
                     (app sh)) |}
  end.

Definition handleSelectConversation (id : string) (sh : t) : t :=
  {| conversations := conversations sh;
     app := setCurrentConversationId (Some id) (app sh) |}.

(** [loadConversation], run by the effect on [currentConversationId]
    once the id has changed to a non-empty one; [None] is a call that
    throws. *)
Definition loadConversation (net : option Conversation) (sh : t) : t :=
  match net with
  | Some conv =>
      {| conversations := conversations sh;
         app := putCurrentConversation (Some conv) (app sh) |}
  | None =>
      {| conversations := conversations sh;
         app := perform (Toast failure "Sohbet yüklenemedi.")
                  (perform (ConsoleError "Failed to load conversation:")
                     (app sh)) |}
  end.

(** [handleDeleteConversation]; [deleted] tells whether
    [api.deleteConversation] returned. *)
Definition handleDeleteConversation (id : string) (deleted : bool) (sh : t)
  : t :=
  if deleted then
    let st := app sh in
    let st :=
      if bool_decide (currentConversationId st = Some id)
      then putCurrentConversation None (setCurrentConversationId None st)
      else st in
    {| conversations :=
         filter (fun c => summary_id c <> id) (conversations sh);
       app := perform (Toast success "Sohbet silindi") st |}
  else
    {| conversations := conversations sh;
       app := perform (Toast failure "Sohbet silinemedi")
                (perform (ConsoleError "Failed to delete conversation:")
                   (app sh)) |}.

End Shell.

(** ** Settings: the chairman, the experts and the failover pool *)

Module Council.
Import JS.

(** The part of the settings the selection handlers work on;
    [all_providers] holds the keys of [settings.all_providers], as
    [Object.keys] lists them. *)
Record Settings := {
  chairman : string;
  experts : list string;
  all_providers : list string;
}.

(** [list.includes(x)] *)
Definition includes (l : list string) (x : string) : bool :=
  bool_decide (x ∈ l).

(** [list.filter((id) => id !== x)] *)
Definition without (x : string) (l : list string) : list string :=
  filter (fun id => id <> x) l.

(** The updater of [handleChairmanSelect]. *)
Definition handleChairmanSelect (providerId : string) (prev : Settings)
  : Settings :=
  if String.eqb (chairman prev) providerId then prev
  else
    let newExperts := without providerId (experts prev) in
    let newExperts :=
      if negb (String.eqb (chairman prev) EmptyString)
         && negb (includes newExperts (chairman prev))
      then
        if includes (experts prev) providerId
        then newExperts ++ [chairman prev]
        else newExperts
      else newExperts in
    {| chairman := providerId; experts := newExperts;
       all_providers := all_providers prev |}.

(** [handleExpertToggle]: the settings it leaves and the toast it shows
    when it refuses. The guard reads the settings of the render and the
    updater the current ones; the handler is run here on the settings
    it was rendered with, so the two are the same. *)
Definition handleExpertToggle (providerId : string) (settings : Settings)
  : Settings * list effect :=
  if String.eqb (chairman settings) providerId
  then (settings, [Toast failure "Başkan aynı zamanda uzman olamaz!"])
  else
    ({| chairman := chairman settings;
        experts :=
          if includes (experts settings) providerId
          then without providerId (experts settings)
          else experts settings ++ [providerId];
        all_providers := all_providers settings |}, []).

(** [getFailoverModels]: the providers that are neither the chairman
    nor an expert. *)
Definition getFailoverModels (settings : Settings) : list string :=
  let selected := chairman settings :: experts settings in
  filter (fun id => id ∉ selected) (all_providers settings).

(** The chairman is no expert, and no expert is listed twice. *)
Definition consistent (settings : Settings) : Prop :=
  (chairman settings ∉ experts settings) /\ NoDup (experts settings).

End Council.

(** ** ChatInterface: what is shown for a message *)

Module Chat.
Import JS App.

Inductive block :=
| UserContent
| SimpleSpinner | SimpleResponse
| Stage1Spinner | Stage1Panel
| Stage2Spinner | Stage2Panel
| Stage3Spinner | Stage3Panel
| RegenerateButton.

(** [msg.loading?.flag] *)
Definition flag (f : Loading.t -> bool) (msg : Message) : bool :=
  match loading msg with
  | Some l => f l
  | None => false
  end.

Definition when (b : bool) (x : block) : list block :=
  if b then [x] else [].

(** The children of the message group of [msg], in the order of the
    JSX: a block is there when the condition before its [&&] is truthy.
    [onRegenerateMessage] is always handed over by [App]. *)
Definition blocks (isLoading : bool) (msg : Message) : list block :=
  if String.eqb (role msg) "user" then [UserContent]
  else
    when (flag Loading.simple msg) SimpleSpinner
    ++ when (truthy (simpleResponse msg)) SimpleResponse
    ++ (if negb (truthy (simpleResponse msg)) then
          when (flag Loading.stage1 msg) Stage1Spinner
          ++ when (truthy (stage1 msg)) Stage1Panel
          ++ when (flag Loading.stage2 msg) Stage2Spinner
          ++ when (truthy (stage2 msg)) Stage2Panel
          ++ when (flag Loading.stage3 msg) Stage3Spinner
          ++ when (truthy (stage3 msg)) Stage3Panel
          ++ when (truthy (stage3 msg) && negb isLoading) RegenerateButton
        else []).

Definition is_staged (x : block) : bool :=
  match x with
  | Stage1Spinner | Stage1Panel | Stage2Spinner | Stage2Panel
  | Stage3Spinner | Stage3Panel | RegenerateButton => true
  | _ => false
  end.

End Chat.

(** ** Stage2: the short name of a model *)

Module Stage2.

(** [text.split(sep)] for a separator of one character. *)
Fixpoint split_on (sep : ascii) (text : string) : list string :=
  match text with
  | EmptyString => [EmptyString]
  | String c rest =>
      if Ascii.eqb c sep then EmptyString :: split_on sep rest
      else
        match split_on sep rest with
        | piece :: pieces => String c piece :: pieces
        | [] => [String c EmptyString]
        end
  end.

(** [model.split("/")[1] || model] *)
Definition modelShortName (model : string) : string :=
  match split_on "/" model with
  | _ :: second :: _ =>
      if String.eqb second EmptyString then model else second
  | _ => model
  end.

Fixpoint has_slash (s : string) : bool :=
  match s with
  | EmptyString => false
  | String c rest => Ascii.eqb c "/" || has_slash rest
  end.

End Stage2.

(** ** Sample channels, conversations and settings *)

Module Scenario.
Import JS Api App Channel Turn Wire Sending Stop Shell Council.

(** The record a payload makes on the channel. *)
Definition record_of (text : string) : record :=
  let event := Sample.event_of text in
  {| payload := quoted text; event := event;
     type := default undefined (get event "type") |}.

(** A staged turn as the server sends it, cut into two chunks. *)
Definition staged_groups : list (list record) :=
  [ [ record_of "{'type':'stage1_start','models':['a','b']}";
      record_of "{'type':'stage1_complete','data':[{'model':'a','response':'one'}]}";
      record_of "{'type':'title_complete','data':{'title':'t'}}" ];
    [ record_of "{'type':'stage2_start'}";
      record_of "{'type':'stage2_complete','data':[{'model':'a','ranking':'A'}],'metadata':{'label_to_model':{}}}";
      record_of "{'type':'stage3_start'}";
      record_of "{'type':'stage3_complete','data':{'model':'c','response':'final'}}";
      record_of "{'type':'complete'}" ] ].

Definition empty_conversation : Conversation :=
  {| conv_id := "c1"; messages := [] |}.

Definition answered_conversation : Conversation :=
  {| conv_id := "c1"; messages := [userMessage Sample.hi; Sample.answered] |}.



(** A stream that starts the first stage and stays open. *)
Definition open_stream : fetched :=
  Responds true {| chunks := [Sample.whole_record]; end_of_body := Closed |}.


(** A pending message that holds a simple response. *)
Definition simple_message : Message :=
  {| role := "assistant"; content := undefined;
     stage1 := null; stage2 := null; stage3 := null;
     simpleResponse :=
       of_json (JObject [("display_name", JString "c");
                         ("response", JString "hello")]);
     metadata := null;
     loading := Some {| Loading.stage1 := false; Loading.stage2 := false;
                        Loading.stage3 := false; Loading.simple := false;
                        Loading.stage1Models := undefined |} |}.

Definition summary (id : string) : Summary :=
  {| summary_id := id; created_at := of_json (JString "2025-01-01");
     message_count := of_json (JNumber "2"); title := undefined |}.

(** The component with two conversations listed and the first one
    open, a turn under way. *)
Definition shell : Shell.t :=
  {| conversations := [summary "c1"; summary "c2"]; app := Sample.sending |}.

Definition listed : Shell.t :=
  {| conversations := [summary "c1"; summary "c2"];
     app := Sample.state_with [userMessage Sample.hi; Sample.answered] |}.

Definition council : Settings :=
  {| chairman := "gemini"; experts := ["openai"; "claude"];
     all_providers := ["gemini"; "openai"; "claude"; "groq"] |}.

End Scenario.

(** * Properties *)

Import JS Api App Channel Turn.

(** ** [JSON.parse] does not depend on its fuel *)

Section ParserFacts.
Import JSON.

Lemma skip_ws_length (s : list ascii) : (length (skip_ws s) <= length s)%nat.
Proof.
  induction s as [|c s IH]; simpl; [lia|].
  destruct (is_ws c); simpl; lia.
Qed.

Lemma expect_length (c : ascii) (s r : list ascii) :
  expect c s = Some r -> length s = S (length r).
Proof.
  destruct s as [|x s]; simpl; [done|].
  destruct (Ascii.eqb x c); [|done]. by intros [= ->].
Qed.

Lemma take_digits_length (s ds r : list ascii) :
  take_digits s = (ds, r) -> length s = (length ds + length r)%nat.
Proof.
  revert ds r; induction s as [|c s IH]; intros ds r; simpl.
  - by intros [= <- <-].
  - destruct (is_digit c).
    + destruct (take_digits s) as [ds' r'] eqn:Hs. intros [= <- <-].
      simpl. by rewrite (IH ds' r').
    + by intros [= <- <-].
Qed.

Lemma lex_string_shorter (n : nat) :
  forall (s : list ascii) (cs : list schar) (r : list ascii),
    (length s <= n)%nat ->
    lex_string s = Some (cs, r) -> (length r < length s)%nat.
Proof.
  induction n as [|n IH]; intros s cs r Hn.
  - destruct s; [done|simpl in Hn; lia].
  - destruct s as [|c s]; [done|]. simpl in Hn. simpl.
    destruct (Ascii.eqb c quote); [intros [= <- <-]; simpl; lia|].
    destruct (Ascii.eqb c backslash).
    + destruct s as [|e s]; [done|]. simpl in Hn.
      assert (Hsimple : forall x cs r,
                 match lex_string s with
                 | Some (cs, rest) => Some (Lit x :: cs, rest)
                 | None => None
                 end = Some (cs, r) -> (length r < S (S (length s)))%nat).
      { intros x cs' r'. destruct (lex_string s) as [[cs0 r0]|] eqn:Hs; [|done].
        intros [= <- <-]. apply IH in Hs; lia. }
      repeat match goal with
        | |- (if ?b then _ else _) = _ -> _ =>
            destruct b; [try (by apply Hsimple)|]
        end; [|done].
      destruct s as [|h1 [|h2 [|h3 [|h4 s]]]]; try done.
      destruct (hex4 h1 h2 h3 h4); [|done].
      destruct (lex_string s) as [[cs0 r0]|] eqn:Hs; [|done].
      intros [= <- <-]. simpl in *. apply IH in Hs; lia.
    + destruct (N_of_ascii c <? 32)%N; [done|].
      destruct (lex_string s) as [[cs0 r0]|] eqn:Hs; [|done].
      intros [= <- <-]. apply IH in Hs; lia.
Qed.

Lemma parse_string_shorter (s : list ascii) (str : string) (r : list ascii) :
  parse_string s = Some (str, r) -> (length r < length s)%nat.
Proof.
  unfold parse_string.
  destruct (lex_string s) as [[cs r0]|] eqn:Hs; [|done].
  intros [= <- <-]. by apply (lex_string_shorter (length s)) in Hs.
Qed.

Lemma fraction_length (s frac r : list ascii) :
  fraction s = Some (frac, r) -> (length r <= length s)%nat.
Proof.
  unfold fraction. destruct (expect "." s) as [s'|] eqn:Hs.
  - apply expect_length in Hs.
    destruct (take_digits s') as [ds r'] eqn:Hd.
    apply take_digits_length in Hd. destruct ds; [done|].
    intros [= <- <-]. lia.
  - by intros [= <- <-].
Qed.

Lemma exponent_length (s ex r : list ascii) :
  exponent s = Some (ex, r) -> (length r <= length s)%nat.
Proof.
  unfold exponent. destruct s as [|e s]; [by intros [= <- <-]|].
  destruct (Ascii.eqb e "e" || Ascii.eqb e "E"); [|by intros [= <- <-]].
  destruct (expect "+" s) as [s1|] eqn:H1;
    [apply expect_length in H1
    |destruct (expect "-" s) as [s2|] eqn:H2; [apply expect_length in H2|]];
    match goal with
    | |- context [take_digits ?x] =>
        destruct (take_digits x) as [ds r'] eqn:Hd;
        apply take_digits_length in Hd
    end;
    (destruct ds; [done|]); intros [= <- <-]; simpl in *; lia.
Qed.

Lemma lex_number_shorter (s lx r : list ascii) :
  lex_number s = Some (lx, r) -> (length r < length s)%nat.
Proof.
  unfold lex_number.
  assert (Hgo : forall sign s0,
             (length s0 <= length s)%nat ->
             (let '(int, s1) := take_digits s0 in
              match int with
              | [] => None
              | _ :: _ =>
                  if leading_zero int then None
                  else
                    match fraction s1 with
                    | Some (frac, s2) =>
                        match exponent s2 with
                        | Some (ex, s3) => Some (sign ++ int ++ frac ++ ex, s3)
                        | None => None
                        end
                    | None => None
                    end
              end) = Some (lx, r) -> (length r < length s)%nat).
  { intros sign s0 Hs0. destruct (take_digits s0) as [int s1] eqn:Hd.
    apply take_digits_length in Hd. destruct int as [|d int]; [done|].
    destruct (leading_zero (d :: int)); [done|].
    destruct (fraction s1) as [[frac s2]|] eqn:Hf; [|done].
    apply fraction_length in Hf.
    destruct (exponent s2) as [[ex s3]|] eqn:He; [|done].
    apply exponent_length in He. intros [= <- <-]. simpl in *. lia. }
  destruct (expect "-" s) as [s'|] eqn:Hs.
  - apply expect_length in Hs. apply Hgo. lia.
  - by apply Hgo.
Qed.

Lemma strip_prefix_length (p s r : list ascii) :
  strip_prefix p s = Some r -> length s = (length p + length r)%nat.
Proof.
  revert s; induction p as [|a p IH]; intros s; simpl.
  - by intros [= ->].
  - destruct s as [|b s]; [done|]. destruct (Ascii.eqb a b); [|done].
    intros H. simpl. by rewrite (IH _ H).
Qed.

Lemma literal_shorter (word : string) (v v' : json) (s r : list ascii) :
  word <> EmptyString ->
  literal word v s = Some (v', r) -> (length r < length s)%nat.
Proof.
  intros Hword. unfold literal.
  destruct (strip_prefix _ s) as [r0|] eqn:Hs; [|done].
  intros [= <- <-]. apply strip_prefix_length in Hs.
  destruct word; [done|]. simpl in Hs. lia.
Qed.

(** Whatever is parsed consumes at least one character. *)
Lemma parse_shorter (fuel : nat) :
  (forall s v r, parse_value fuel s = Some (v, r) ->
                 (length r < length s)%nat) /\
  (forall s vs r, parse_elements fuel s = Some (vs, r) ->
                  (length r < length s)%nat) /\
  (forall s ms r, parse_members fuel s = Some (ms, r) ->
                  (length r < length s)%nat).
Proof.
  induction fuel as [|fuel (IHv & IHe & IHm)]; [by repeat split|].
  repeat split.
  - intros s v r. simpl. pose proof (skip_ws_length s) as Hws.
    destruct (skip_ws s) as [|c s0]; [done|]. simpl in Hws.
    destruct (Ascii.eqb c "{").
    { pose proof (skip_ws_length s0) as Hws0.
      destruct (expect "}" (skip_ws s0)) as [r'|] eqn:Hclose.
      - apply expect_length in Hclose. intros [= <- <-]. lia.
      - destruct (parse_members fuel s0) as [[ms r']|] eqn:Hm; [|done].
        apply IHm in Hm. intros [= <- <-]. lia. }
    destruct (Ascii.eqb c "[").
    { pose proof (skip_ws_length s0) as Hws0.
      destruct (expect "]" (skip_ws s0)) as [r'|] eqn:Hclose.
      - apply expect_length in Hclose. intros [= <- <-]. lia.
      - destruct (parse_elements fuel s0) as [[vs r']|] eqn:He; [|done].
        apply IHe in He. intros [= <- <-]. lia. }
    destruct (Ascii.eqb c quote).
    { destruct (parse_string s0) as [[str r']|] eqn:Hstr; [|done].
      apply parse_string_shorter in Hstr. intros [= <- <-]. lia. }
    destruct (Ascii.eqb c "t");
      [intros H; apply literal_shorter in H; [simpl in H; lia|done]|].
    destruct (Ascii.eqb c "f");
      [intros H; apply literal_shorter in H; [simpl in H; lia|done]|].
    destruct (Ascii.eqb c "n");
      [intros H; apply literal_shorter in H; [simpl in H; lia|done]|].
    destruct (lex_number (c :: s0)) as [[lx r']|] eqn:Hnum; [|done].
    apply lex_number_shorter in Hnum. intros [= <- <-]. simpl in Hnum. lia.
  - intros s vs r. simpl.
    destruct (parse_value fuel s) as [[v r0]|] eqn:Hv; [|done].
    apply IHv in Hv. pose proof (skip_ws_length r0) as Hws.
    destruct (skip_ws r0) as [|c r1]; [done|]. simpl in Hws.
    destruct (Ascii.eqb c ",").
    { destruct (parse_elements fuel r1) as [[vs' r']|] eqn:He; [|done].
      apply IHe in He. intros [= <- <-]. lia. }
    destruct (Ascii.eqb c "]"); [|done]. intros [= <- <-]. lia.
  - intros s ms r. simpl. pose proof (skip_ws_length s) as Hws.
    destruct (expect quote (skip_ws s)) as [s0|] eqn:Hq; [|done].
    apply expect_length in Hq.
    destruct (parse_string s0) as [[k r1]|] eqn:Hk; [|done].
    apply parse_string_shorter in Hk.
    pose proof (skip_ws_length r1) as Hws1.
    destruct (expect ":" (skip_ws r1)) as [r2|] eqn:Hcolon; [|done].
    apply expect_length in Hcolon.
    destruct (parse_value fuel r2) as [[v r3]|] eqn:Hv; [|done].
    apply IHv in Hv. pose proof (skip_ws_length r3) as Hws3.
    destruct (skip_ws r3) as [|c r4]; [done|]. simpl in Hws3.
    destruct (Ascii.eqb c ",").
    { destruct (parse_members fuel r4) as [[ms' r']|] eqn:Hm; [|done].
      apply IHm in Hm. intros [= <- <-]. lia. }
    destruct (Ascii.eqb c "}"); [|done]. intros [= <- <-]. lia.
Qed.

(** Past [2 * length s + 2] for a value ([+ 3] for elements and members,
    which are entered after a character of the value has been read), the
    fuel does not change the result. *)
Lemma parse_fuel (fuel : nat) :
  (forall fuel' s,
      (2 * length s + 2 <= fuel)%nat -> (2 * length s + 2 <= fuel')%nat ->
      parse_value fuel s = parse_value fuel' s) /\
  (forall fuel' s,
      (2 * length s + 3 <= fuel)%nat -> (2 * length s + 3 <= fuel')%nat ->
      parse_elements fuel s = parse_elements fuel' s) /\
  (forall fuel' s,
      (2 * length s + 3 <= fuel)%nat -> (2 * length s + 3 <= fuel')%nat ->
      parse_members fuel s = parse_members fuel' s).
Proof.
  induction fuel as [|fuel (IHv & IHe & IHm)]; [repeat split; intros; lia|].
  repeat split.
  - intros [|fuel'] s Hf Hf'; [lia|]. simpl.
    pose proof (skip_ws_length s) as Hws.
    destruct (skip_ws s) as [|c s0]; [done|]. simpl in Hws.
    rewrite (IHm fuel' s0), (IHe fuel' s0) by lia. reflexivity.
  - intros [|fuel'] s Hf Hf'; [lia|]. simpl.
    rewrite (IHv fuel' s) by lia.
    destruct (parse_value fuel' s) as [[v r0]|] eqn:Hv; [|done].
    apply (proj1 (parse_shorter fuel')) in Hv.
    pose proof (skip_ws_length r0) as Hws.
    destruct (skip_ws r0) as [|c r1]; [done|]. simpl in Hws.
    rewrite (IHe fuel' r1) by lia. reflexivity.
  - intros [|fuel'] s Hf Hf'; [lia|]. simpl.
    pose proof (skip_ws_length s) as Hws.
    destruct (expect quote (skip_ws s)) as [s0|] eqn:Hq; [|done].
    apply expect_length in Hq.
    destruct (parse_string s0) as [[k r1]|] eqn:Hk; [|done].
    apply parse_string_shorter in Hk.
    pose proof (skip_ws_length r1) as Hws1.
    destruct (expect ":" (skip_ws r1)) as [r2|] eqn:Hcolon; [|done].
    apply expect_length in Hcolon.
    rewrite (IHv fuel' r2) by lia.
    destruct (parse_value fuel' r2) as [[v r3]|] eqn:Hv; [|done].
    apply (proj1 (parse_shorter fuel')) in Hv.
    pose proof (skip_ws_length r3) as Hws3.
    destruct (skip_ws r3) as [|c r4]; [done|]. simpl in Hws3.
    rewrite (IHm fuel' r4) by lia. reflexivity.
Qed.

(** The fuel [parse] gives is enough: more fuel gives the same value or
    the same syntax error. *)
Lemma parse_value_fuel (fuel : nat) (s : list ascii) :
  (enough s <= fuel)%nat -> parse_value fuel s = parse_value (enough s) s.
Proof.
  intros Hf. apply (proj1 (parse_fuel fuel)); unfold enough in *; lia.
Qed.

End ParserFacts.

(** ** The decoder *)

Section DecoderFacts.

Lemma handle_line_trace (line : string) (tr : list output) :
  handle_line record_event record_effect line tr = tr ++ line_trace line.
Proof.
  unfold line_trace, handle_line, dispatch, record_event, record_effect.
  repeat case_match; simpl; rewrite ?app_nil_r; reflexivity.
Qed.

Lemma handle_lines_trace (lines : list string) (tr : list output) :
  fold_left (fun st line => handle_line record_event record_effect line st)
    lines tr
  = tr ++ flat_map line_trace lines.
Proof.
  revert tr; induction lines as [|line lines IH]; intros tr; simpl.
  - by rewrite app_nil_r.
  - by rewrite IH, handle_line_trace, <- app_assoc.
Qed.

Lemma chunk_trace_lines (chunk : string) :
  chunk_trace chunk = flat_map line_trace (split chunk).
Proof. unfold chunk_trace, handle_chunk. by rewrite handle_lines_trace. Qed.

Lemma handle_chunk_trace (chunk : string) (tr : list output) :
  handle_chunk record_event record_effect chunk tr = tr ++ chunk_trace chunk.
Proof.
  unfold handle_chunk. by rewrite handle_lines_trace, chunk_trace_lines.
Qed.

Lemma handle_chunks_trace (chunks : list string) (tr : list output) :
  fold_left (fun st chunk => handle_chunk record_event record_effect chunk st)
    chunks tr
  = tr ++ flat_map chunk_trace chunks.
Proof.
  revert tr; induction chunks as [|chunk chunks IH]; intros tr; simpl.
  - by rewrite app_nil_r.
  - by rewrite IH, handle_chunk_trace, <- app_assoc.
Qed.

Lemma trace_chunks (chunks : list string) :
  trace chunks = flat_map chunk_trace chunks.
Proof. unfold trace, decode, pump; simpl. by rewrite handle_chunks_trace. Qed.

Lemma trace_app (cs1 cs2 : list string) :
  trace (cs1 ++ cs2) = trace cs1 ++ trace cs2.
Proof. by rewrite !trace_chunks, flat_map_app. Qed.

Lemma decode_cons (chunk : string) (chunks : list string) (e : ending) :
  decode {| chunks := chunk :: chunks; end_of_body := e |}
  = (chunk_trace chunk ++ fst (decode {| chunks := chunks; end_of_body := e |}),
     snd (decode {| chunks := chunks; end_of_body := e |})).
Proof.
  unfold decode, pump; simpl.
  rewrite !handle_chunks_trace, handle_chunk_trace; simpl.
  destruct e as [|e]; simpl; [by idtac|].
  destruct (String.eqb (name e) "AbortError"); simpl; [|by idtac].
  unfold record_event. by rewrite <- app_assoc.
Qed.

Lemma decode_app (before after : list string) (e : ending) :
  decode {| chunks := before ++ after; end_of_body := e |}
  = (trace before ++ fst (decode {| chunks := after; end_of_body := e |}),
     snd (decode {| chunks := after; end_of_body := e |})).
Proof.
  induction before as [|chunk before IH].
  - simpl. by destruct (decode _).
  - rewrite <- app_comm_cons, decode_cons, IH. simpl fst; simpl snd.
    by rewrite !trace_chunks, app_assoc.
Qed.

Lemma decode_thrown (b : body) : snd (decode b) = thrown (end_of_body b).
Proof.
  unfold decode, pump, thrown. destruct (end_of_body b) as [|e]; [done|].
  by destruct (String.eqb (name e) "AbortError").
Qed.

Lemma split_line_rest (line rest : string) :
  has_newline line = false ->
  split (line +:+ String newline rest) = line :: split rest.
Proof.
  induction line as [|c line IH]; simpl; intros H.
  - reflexivity.
  - apply orb_false_iff in H as [Hc Hl]. rewrite Hc, (IH Hl). reflexivity.
Qed.

Lemma split_line (line : string) :
  has_newline line = false -> split line = [line].
Proof.
  induction line as [|c line IH]; simpl; intros H.
  - reflexivity.
  - apply orb_false_iff in H as [Hc Hl]. rewrite Hc, (IH Hl). reflexivity.
Qed.

Lemma split_join (lines : list string) :
  Forall (fun line => has_newline line = false) lines ->
  lines <> [] ->
  split (join lines) = lines.
Proof.
  induction 1 as [|line lines Hline Hlines IH]; intros Hne; [done|].
  destruct lines as [|line' lines].
  - simpl. by apply split_line.
  - change (join (line :: line' :: lines))
      with (line +:+ String newline (join (line' :: lines))).
    rewrite split_line_rest by done. by rewrite IH.
Qed.

Lemma startsWith_app (p s : string) : startsWith (p +:+ s) p = true.
Proof.
  unfold startsWith. induction p as [|c p IH]; simpl; [by destruct s|].
  by destruct (ascii_dec c c).
Qed.

Lemma slice_app (p s : string) : slice (String.length p) (p +:+ s) = s.
Proof. induction p as [|c p IH]; simpl; done. Qed.


Lemma line_trace_data (payload : string) :
  line_trace ("data: " +:+ payload)
  = match JSON.parse payload with
    | Some event =>
        match get event "type" with
        | Some type => [Emitted type event]
        | None => [Performed parse_failure]
        end
    | None => [Performed parse_failure]
    end.
Proof.
  unfold line_trace, handle_line, dispatch.
  rewrite startsWith_app.
  change 6%nat with (String.length "data: "). rewrite slice_app.
  by repeat case_match.
Qed.

End DecoderFacts.

Section DecoderClaims.

Lemma has_newline_app (a b : string) :
  has_newline (a +:+ b) = has_newline a || has_newline b.
Proof.
  induction a as [|c a IH]; simpl; [done|]. by rewrite IH, orb_assoc.
Qed.


Lemma chunk_trace_unterminated (line : string) :
  has_newline line = false -> chunk_trace line = line_trace line.
Proof.
  intros H. rewrite chunk_trace_lines, split_line by done.
  cbn [flat_map]. by rewrite app_nil_r.
Qed.

Lemma decode_around (before after : list string) (chunk : string)
    (e : ending) :
  decode {| chunks := before ++ [chunk] ++ after; end_of_body := e |}
  = (trace before ++ chunk_trace chunk
       ++ fst (decode {| chunks := after; end_of_body := e |}),
     thrown e).
Proof.
  rewrite decode_app. simpl app. rewrite decode_cons. simpl fst; simpl snd.
  by rewrite decode_thrown.
Qed.




(** C9. A [data: ] line whose payload is not valid JSON costs one
    diagnostic and nothing else: the lines before it and after it in
    its chunk, and the chunks before and after, are decoded as they
    would be without it, and what the decoder throws to its caller
    depends on the end of the channel alone. *)
Theorem malformed_record_is_dropped
    (before after : list string) (e : ending)
    (lines1 lines2 : list string) (bad : string) :
  Forall (fun line => has_newline line = false) lines1 ->
  Forall (fun line => has_newline line = false) lines2 ->
  has_newline bad = false ->
  JSON.parse bad = None ->
  decode {| chunks := before
              ++ [join (lines1 ++ ["data: " +:+ bad] ++ lines2)]
              ++ after;
            end_of_body := e |}
  = (trace before
       ++ (flat_map line_trace lines1 ++ [Performed parse_failure]
             ++ flat_map line_trace lines2)
       ++ fst (decode {| chunks := after; end_of_body := e |}),
     thrown e).
Proof.
  intros H1 H2 Hnl Hbad.
  rewrite decode_around, chunk_trace_lines, split_join.
  - rewrite !flat_map_app. simpl. by rewrite line_trace_data, Hbad, app_nil_r.
  - apply Forall_app; split; [done|]. apply Forall_app; split; [|done].
    apply Forall_cons; split; [|done]. by rewrite has_newline_app, Hnl.
  - by destruct lines1.
Qed.

Lemma malformed_record_is_dropped_witness :
  (Forall (fun line => has_newline line = false)
     [quoted "data: {'type':'stage1_start'}"] /\
   Forall (fun line => has_newline line = false)
     [quoted "data: {'type':'complete'}"; EmptyString] /\
   has_newline "{oops" = false /\
   JSON.parse "{oops" = None) /\
  decode {| chunks := [] ++ [join ([quoted "data: {'type':'stage1_start'}"]
                               ++ ["data: " +:+ "{oops"]
                               ++ [quoted "data: {'type':'complete'}";
                                   EmptyString])] ++ [];
            end_of_body := Closed |}
  = ([Emitted (of_json (JString "stage1_start"))
        (JObject [("type", JString "stage1_start")]);
      Performed parse_failure;
      Emitted (of_json (JString "complete"))
        (JObject [("type", JString "complete")])], None).
Proof.
  split; [repeat split; repeat constructor|].
  apply (malformed_record_is_dropped [] [] Closed
           [quoted "data: {'type':'stage1_start'}"]
           [quoted "data: {'type':'complete'}"; EmptyString] "{oops");
    repeat constructor.
Defined.

End DecoderClaims.

(** ** The reducer *)

Lemma is_string_true (v : value) (s : string) :
  is_string v s = true -> v = of_json (JString s).
Proof.
  destruct v as [|[]]; simpl; try done. by intros ->%String.eqb_eq.
Qed.

(** One case of the [switch] at a time. *)
Ltac by_event_type :=
  unfold onEvent;
  repeat match goal with
    | |- context [if is_string ?t ?s then _ else _] =>
        let E := fresh "Htype" in destruct (is_string t s) eqn:E
    end.

Ltac name_the_type :=
  repeat match goal with
    | E : is_string ?t _ = true |- _ => apply is_string_true in E; subst t
    end.

Section ReducerFacts.

Lemma updateLast_snoc (assign : Message -> option Message)
    (conv : Conversation) (base : list Message) (m : Message) :
  messages conv = base ++ [m] ->
  updateLast assign conv
  = (m' ← assign m; Some (with_messages conv (base ++ [m']))).
Proof.
  intros Hm. unfold updateLast. rewrite Hm, last_snoc. simpl.
  destruct (assign m) as [m'|]; simpl; [|done].
  rewrite length_app. simpl.
  replace (pred (length base + 1)) with (length base + 0)%nat by lia.
  by rewrite insert_app_r.
Qed.

Lemma setCurrentConversation_updateLast (assign : Message -> option Message)
    (st : State) (conv : Conversation) (base : list Message) (m : Message) :
  currentConversation st = Some conv ->
  messages conv = base ++ [m] ->
  setCurrentConversation (updateLast assign) st
  = (m' ← assign m;
     Some (set_currentConversation (with_messages conv (base ++ [m'])) st)).
Proof.
  intros Hc Hm. unfold setCurrentConversation. rewrite Hc. simpl.
  rewrite (updateLast_snoc _ _ _ _ Hm). by destruct (assign m).
Qed.

Lemma with_messages_same (conv : Conversation) (ms : list Message) :
  messages conv = ms -> with_messages conv ms = conv.
Proof. destruct conv; unfold with_messages; simpl; by intros ->. Qed.

Lemma get_not_null (event : json) (k : string) :
  event <> JNull -> exists v, get event k = Some v.
Proof. destruct event; simpl; eauto. done. Qed.

Lemma get_type_not_null (event : json) (t : value) :
  get event "type" = Some t -> event <> JNull.
Proof. by destruct event. Qed.

Lemma type_is_true (name : string) (event : json) :
  type_is name event = true ->
  get event "type" = Some (of_json (JString name)) /\ event <> JNull.
Proof.
  unfold type_is. destruct (get event "type") as [t|] eqn:Ht; [|done].
  intros ->%is_string_true. split; [done|]. by destruct event.
Qed.

(** What an event does to the conversation: the messages before the
    last are kept, and every field of the last message is either kept
    or written with the payload of the event. *)
Lemma onEvent_fields (t : value) (event : json) (st st' : State)
    (conv : Conversation) (base : list Message) (m : Message) :
  currentConversation st = Some conv ->
  messages conv = base ++ [m] ->
  onEvent t event st = Some st' ->
  exists m',
    currentConversation st' = Some (with_messages conv (base ++ [m'])) /\
    currentConversationId st' = currentConversationId st /\
    role m' = role m /\ content m' = content m /\
    (is_Some (loading m) -> is_Some (loading m')) /\
    simpleResponse m'
    = (if is_string t "simple_mode_complete"
       then default undefined (get event "data") else simpleResponse m) /\
    stage1 m'
    = (if is_string t "stage1_complete"
       then default undefined (get event "data") else stage1 m) /\
    stage2 m'
    = (if is_string t "stage2_complete"
       then default undefined (get event "data") else stage2 m) /\
    metadata m'
    = (if is_string t "stage2_complete"
       then default undefined (get event "metadata") else metadata m) /\
    stage3 m'
    = (if is_string t "stage3_complete"
       then default undefined (get event "data") else stage3 m).
Proof.
  intros Hc Hm.
  pose proof (with_messages_same conv _ Hm) as Hsame.
  by_event_type;
    rewrite ?(setCurrentConversation_updateLast _ _ _ _ _ Hc Hm);
    unfold assign_loading, assign_loading_if_present;
    intros H; destruct (loading m) eqn:Hl; simplify_option_eq;
    name_the_type; simpl in *;
    try (eexists; repeat split; simpl; try done; eauto; fail);
    exists m; rewrite Hsame; repeat split; done.
Qed.

(** With a [loading] object on the last message, no handler throws. *)
Lemma onEvent_total (t : value) (event : json) (st : State)
    (conv : Conversation) (base : list Message) (m : Message)
    (l : Loading.t) :
  currentConversation st = Some conv ->
  messages conv = base ++ [m] ->
  loading m = Some l ->
  event <> JNull ->
  is_Some (onEvent t event st).
Proof.
  intros Hc Hm Hl Hnn.
  destruct (get_not_null event "data" Hnn) as [data Hdata].
  destruct (get_not_null event "metadata" Hnn) as [meta Hmeta].
  destruct (get_not_null event "models" Hnn) as [models Hmodels].
  destruct (get_not_null event "message" Hnn) as [msg Hmsg].
  by_event_type;
    rewrite ?(setCurrentConversation_updateLast _ _ _ _ _ Hc Hm);
    unfold assign_loading, assign_loading_if_present;
    rewrite ?Hdata, ?Hmeta, ?Hmodels, ?Hmsg; simpl;
    rewrite ?Hl; simpl; rewrite ?Hmodels; simpl; eauto.
Qed.

Lemma dispatch_event (event : json) (st : State) :
  dispatch onEvent' perform' event (Some st)
  = match get event "type" with
    | Some t => onEvent t event st
    | None => Some (perform parse_failure st)
    end.
Proof. unfold dispatch. by destruct (get event "type"). Qed.

Lemma dispatch_down (event : json) :
  dispatch onEvent' perform' event None = None.
Proof. unfold dispatch. by destruct (get event "type"). Qed.

(** An event keeps the turn under way, on the same base. *)
Lemma onEvent_pending (t : value) (event : json) (st : State)
    (conv : Conversation) (base : list Message) :
  pending_on conv base st ->
  event <> JNull ->
  exists st', onEvent t event st = Some st' /\ pending_on conv base st'.
Proof.
  intros (m & l & Hc & Hl) Hnn.
  destruct (onEvent_total t event st _ base m l Hc eq_refl Hl Hnn)
    as [st' Hst'].
  destruct (onEvent_fields t event st st' _ base m Hc eq_refl Hst')
    as (m' & Hc' & _ & _ & _ & Hl' & _).
  destruct (Hl' (ex_intro _ l Hl)) as [l' Hl''].
  exists st'. split; [done|]. by exists m', l'.
Qed.

Lemma dispatch_pending (event : json) (st : State) (conv : Conversation)
    (base : list Message) :
  pending_on conv base st ->
  exists st',
    dispatch onEvent' perform' event (Some st) = Some st' /\
    pending_on conv base st'.
Proof.
  intros Hp. rewrite dispatch_event.
  destruct (get event "type") as [t|] eqn:Ht.
  - apply onEvent_pending; [done|]. by eapply get_type_not_null.
  - eexists. split; [done|]. destruct Hp as (m & l & Hc & Hl).
    by exists m, l.
Qed.

Lemma handle_line_pending (line : string) (st : State)
    (conv : Conversation) (base : list Message) :
  pending_on conv base st ->
  exists st',
    handle_line onEvent' perform' line (Some st) = Some st' /\
    pending_on conv base st'.
Proof.
  intros Hp. unfold handle_line.
  destruct (startsWith line "data: "); [|by eauto].
  destruct (JSON.parse _) as [event|]; [by apply dispatch_pending|].
  eexists. split; [done|].
  destruct Hp as (m & l & Hc & Hl). by exists m, l.
Qed.

Lemma handle_chunk_pending (chunk : string) (st : State)
    (conv : Conversation) (base : list Message) :
  pending_on conv base st ->
  exists st',
    handle_chunk onEvent' perform' chunk (Some st) = Some st' /\
    pending_on conv base st'.
Proof.
  unfold handle_chunk. generalize (split chunk) as lines.
  intros lines; revert st; induction lines as [|line lines IH];
    intros st Hp; simpl; [by eauto|].
  destruct (handle_line_pending line st conv base Hp) as (st1 & -> & Hp1).
  by apply IH.
Qed.

Lemma pump_pending (b : body) (st : State) (conv : Conversation)
    (base : list Message) :
  pending_on conv base st ->
  exists st',
    pump onEvent' perform' b (Some st) = (Some st', thrown (end_of_body b)) /\
    pending_on conv base st'.
Proof.
  unfold pump. destruct b as [chunks e]; simpl.
  revert st; induction chunks as [|chunk chunks IH]; intros st Hp; simpl.
  - destruct e as [|e]; simpl; [by eauto|].
    destruct (String.eqb (name e) "AbortError"); [|by eauto].
    destruct (onEvent_pending (of_json (JString "aborted")) aborted_event
                st conv base Hp) as (st' & Hst' & Hp'); [done|].
    exists st'. unfold onEvent'. simpl. by rewrite Hst'.
  - destruct (handle_chunk_pending chunk st conv base Hp) as (st1 & -> & Hp1).
    by apply IH.
Qed.

End ReducerFacts.

Section ReducerClaims.

(** C10. Whatever the last message of the conversation is (no handler
    looks at its role, or at whether it is still pending), an event that
    is applied leaves the messages before it as they were, and writes
    the last one only: each of its fields is kept, or set from the
    payload of the event. *)
Theorem stream_events_write_the_last_message_only
    (t : value) (event : json) (st st' : State)
    (conv : Conversation) (base : list Message) (m : Message) :
  currentConversation st = Some conv ->
  messages conv = base ++ [m] ->
  onEvent t event st = Some st' ->
  exists conv' m',
    currentConversation st' = Some conv' /\
    conv_id conv' = conv_id conv /\
    messages conv' = base ++ [m'] /\
    role m' = role m /\ content m' = content m /\
    simpleResponse m'
    = (if is_string t "simple_mode_complete"
       then default undefined (get event "data") else simpleResponse m) /\
    stage1 m'
    = (if is_string t "stage1_complete"
       then default undefined (get event "data") else stage1 m) /\
    stage2 m'
    = (if is_string t "stage2_complete"
       then default undefined (get event "data") else stage2 m) /\
    metadata m'
    = (if is_string t "stage2_complete"
       then default undefined (get event "metadata") else metadata m) /\
    stage3 m'
    = (if is_string t "stage3_complete"
       then default undefined (get event "data") else stage3 m).
Proof.
  intros Hc Hm Hev.
  destruct (onEvent_fields t event st st' conv base m Hc Hm Hev)
    as (m' & Hc' & _ & Hrole & Hcontent & _ & Hfields).
  exists (with_messages conv (base ++ [m'])), m'.
  repeat split; try done; apply Hfields.
Qed.

Lemma stream_events_write_the_last_message_only_witness :
  (currentConversation (Sample.state_with [userMessage Sample.hi; Sample.finished])
   = Some {| conv_id := "c1";
             messages := [userMessage Sample.hi; Sample.finished] |} /\
   [userMessage Sample.hi; Sample.finished]
   = [userMessage Sample.hi] ++ [Sample.finished] /\
   onEvent (of_json (JString "stage1_complete")) Sample.late_event
     (Sample.state_with [userMessage Sample.hi; Sample.finished])
   = Some Sample.after_late_event) /\
  exists conv' m',
    currentConversation Sample.after_late_event = Some conv' /\
    messages conv' = [userMessage Sample.hi] ++ [m'] /\
    stage1 m' = of_json (JString "late") /\
    stage3 m' = stage3 Sample.finished.
Proof.
  split; [by repeat split|].
  destruct (stream_events_write_the_last_message_only
              (of_json (JString "stage1_complete")) Sample.late_event
              (Sample.state_with [userMessage Sample.hi; Sample.finished])
              Sample.after_late_event _ [userMessage Sample.hi]
              Sample.finished eq_refl eq_refl eq_refl)
    as (conv' & m' & Hc & _ & Hm & _ & _ & _ & H1 & _ & _ & H3).
  by exists conv', m'.
Defined.

(** C7. A read that is aborted makes the client call the handler with
    the [aborted] pseudo-event and return normally; the handler
    switches the four loading flags of the pending message off and
    leaves its data, and the rest of the state, as they are: nothing
    is finalized. *)
Theorem abort_clears_the_flags_and_keeps_the_data
    (st : State) (conv : Conversation) (base : list Message) (m : Message)
    (l : Loading.t) (e : exn) :
  currentConversation st = Some conv ->
  messages conv = base ++ [m] ->
  loading m = Some l ->
  Loading.stage1 l = true ->
  name e = "AbortError" ->
  exists st' conv' m' l',
    pump onEvent' perform'
      {| chunks := []; end_of_body := ReadRejects e |} (Some st)
    = (Some st', None) /\
    currentConversation st' = Some conv' /\
    messages conv' = base ++ [m'] /\
    loading m' = Some l' /\ Loading.all_clear l' /\
    Loading.stage1Models l' = Loading.stage1Models l /\
    simpleResponse m' = simpleResponse m /\
    stage1 m' = stage1 m /\ stage2 m' = stage2 m /\ stage3 m' = stage3 m /\
    metadata m' = metadata m /\
    isLoading st' = isLoading st /\ effects st' = effects st.
Proof.
  intros Hc Hm Hl _ He. unfold pump; simpl. rewrite He; simpl.
  unfold onEvent; simpl.
  rewrite (setCurrentConversation_updateLast _ _ _ _ _ Hc Hm).
  unfold assign_loading_if_present. rewrite Hl. simpl.
  eexists _, _, _, _. repeat split.
Qed.

Lemma abort_clears_the_flags_and_keeps_the_data_witness :
  (App.deliver [Sample.stage1_start] (Some Sample.sending)
   = Some Sample.in_stage1 /\
   name AbortError = "AbortError") /\
  exists st' conv' m' l',
    pump onEvent' perform'
      {| chunks := []; end_of_body := ReadRejects AbortError |}
      (Some Sample.in_stage1)
    = (Some st', None) /\
    currentConversation st' = Some conv' /\
    messages conv' = [userMessage Sample.hi] ++ [m'] /\
    loading m' = Some l' /\ Loading.all_clear l' /\
    nullish (simpleResponse m') = true /\ nullish (stage3 m') = true.
Proof.
  split; [split; vm_compute; reflexivity|].
  destruct (abort_clears_the_flags_and_keeps_the_data
              Sample.in_stage1 _ [userMessage Sample.hi] _ _ AbortError
              eq_refl eq_refl eq_refl eq_refl eq_refl)
    as (st' & conv' & m' & l' & H1 & H2 & H3 & H4 & H5 & _ & H6 & _ & _
        & H7 & _).
  exists st', conv', m', l'.
  repeat split; try done; try apply H5; by rewrite ?H6, ?H7.
Defined.

(** C8. An event whose type the [switch] has no case for is logged and
    changes nothing else; followed by [complete], it leaves the state
    that [complete] alone leaves, the log apart, and the turn is
    finalized: not loading, no abort controller. *)
Theorem unrecognised_event_changes_nothing
    (unknown done : json) (t : value) (st : State) :
  get unknown "type" = Some t ->
  recognised t = false ->
  type_is "complete" done = true ->
  App.deliver [unknown] (Some st)
  = Some (perform (ConsoleLog "Unknown event type:" t) st)
  /\
  exists st1 st2,
    App.deliver [unknown; done] (Some st) = Some st1 /\
    App.deliver [done] (Some st) = Some st2 /\
    forget_effects st1 = forget_effects st2 /\
    currentConversation st1 = currentConversation st /\
    isLoading st1 = false /\ abortControllerRef st1 = false /\
    effects st1
    = effects st ++ [ConsoleLog "Unknown event type:" t; LoadConversations;
                     Toast success "Konsey cevabı tamamlandı"].
Proof.
  intros Ht Hunknown [Hdone _]%type_is_true.
  assert (Hlog : onEvent t unknown st
                 = Some (perform (ConsoleLog "Unknown event type:" t) st)).
  { unfold recognised in Hunknown.
    repeat (apply orb_false_iff in Hunknown as [Hunknown ?]).
    unfold onEvent.
    repeat match goal with
      | E : is_string t _ = false |- _ => rewrite E; clear E
      end.
    reflexivity. }
  unfold App.deliver; simpl. rewrite !dispatch_event, Ht, Hlog. split; [done|].
  rewrite dispatch_event, Hdone. simpl.
  eexists _, _. repeat split. simpl. by rewrite <- !app_assoc.
Qed.

Lemma unrecognised_event_changes_nothing_witness :
  (get Sample.foo_bar "type" = Some (of_json (JString "foo_bar")) /\
   recognised (of_json (JString "foo_bar")) = false /\
   type_is "complete" Sample.complete = true) /\
  App.deliver [Sample.foo_bar] (Some Sample.sending)
  = Some (perform (ConsoleLog "Unknown event type:"
                     (of_json (JString "foo_bar"))) Sample.sending)
  /\
  exists st1 st2,
    App.deliver [Sample.foo_bar; Sample.complete] (Some Sample.sending)
    = Some st1 /\
    App.deliver [Sample.complete] (Some Sample.sending) = Some st2 /\
    forget_effects st1 = forget_effects st2 /\
    currentConversation st1 = currentConversation Sample.sending /\
    isLoading st1 = false /\ abortControllerRef st1 = false /\
    effects st1
    = effects Sample.sending
        ++ [ConsoleLog "Unknown event type:" (of_json (JString "foo_bar"));
            LoadConversations; Toast success "Konsey cevabı tamamlandı"].
Proof.
  split; [by repeat split|].
  by apply (unrecognised_event_changes_nothing Sample.foo_bar Sample.complete
              (of_json (JString "foo_bar")) Sample.sending).
Defined.

(** The part of C3 the code does: once a local abort has switched the
    flags off and the turn has been closed, [cancelled] changes
    nothing. *)
Lemma cancelled_after_abort_changes_nothing
    (event : json) (st : State) (conv : Conversation) (base : list Message)
    (m : Message) (l : Loading.t) :
  currentConversation st = Some conv ->
  messages conv = base ++ [m] ->
  loading m = Some l ->
  Loading.all_clear l ->
  isLoading st = false ->
  abortControllerRef st = false ->
  onEvent (of_json (JString "cancelled")) event st = Some st.
Proof.
  intros Hc Hm Hl (H1 & H2 & H3 & H4) Hloading Href.
  unfold onEvent; simpl.
  rewrite (setCurrentConversation_updateLast _ _ _ _ _ Hc Hm).
  unfold assign_loading_if_present. rewrite Hl. simpl.
  destruct st, conv, m, l; simpl in *. by simplify_eq.
Qed.

(** C3 (the code departs from it). After [simple_mode_start] the pending
    message is loading in simple mode; [cancelled] finalizes the turn
    but leaves that flag on, where [aborted] switches it off. *)
Theorem cancelled_leaves_the_simple_flag_on :
  exists st' m' l',
    App.deliver [Sample.simple_mode_start; Sample.cancelled]
      (Some Sample.sending) = Some st' /\
    lastMessage st' = Some m' /\ loading m' = Some l' /\
    Loading.simple l' = true /\
    Loading.stage1 l' = false /\ Loading.stage2 l' = false /\
    Loading.stage3 l' = false /\
    isLoading st' = false /\ abortControllerRef st' = false /\
    exists st'' m'' l'',
      App.deliver [Sample.simple_mode_start;
                   JObject [("type", JString "aborted")]]
        (Some Sample.sending) = Some st'' /\
      lastMessage st'' = Some m'' /\ loading m'' = Some l'' /\
      Loading.simple l'' = false.
Proof.
  eexists _, _, _. repeat split; try (vm_compute; reflexivity).
  eexists _, _, _. repeat split; vm_compute; reflexivity.
Qed.

End ReducerClaims.

(** ** Sequences of events *)

Section SequenceFacts.

Lemma deliver_cons (event : json) (events : list json) (st : option State) :
  App.deliver (event :: events) st
  = App.deliver events (dispatch onEvent' perform' event st).
Proof. reflexivity. Qed.

Lemma deliver_app (events1 events2 : list json) (st : option State) :
  App.deliver (events1 ++ events2) st
  = App.deliver events2 (App.deliver events1 st).
Proof. unfold App.deliver. by rewrite fold_left_app. Qed.

Lemma follow_app (p : phase) (events1 events2 : list json) :
  follow p (events1 ++ events2)
  = follow p events1 ≫= fun q => follow q events2.
Proof.
  revert p; induction events1 as [|event events1 IH]; intros p; simpl.
  - reflexivity.
  - destruct (next p event) as [q|]; simpl; [apply IH|reflexivity].
Qed.

Lemma type_is_other (name other : string) (event : json) :
  type_is name event = true ->
  String.eqb name other = false ->
  type_is other event = false.
Proof.
  intros [Ht _]%type_is_true Hne. unfold type_is. rewrite Ht. simpl.
  exact Hne.
Qed.

(** One event of a staged turn, applied to a message in the shape of
    its phase, gives a message in the shape of the next phase. *)
Lemma next_shaped (p p' : phase) (event : json) (st : State)
    (conv : Conversation) (base : list Message) (m : Message) :
  currentConversation st = Some conv ->
  messages conv = base ++ [m] ->
  shaped p m ->
  next p event = Some p' ->
  exists st' m',
    dispatch onEvent' perform' event (Some st) = Some st' /\
    currentConversation st' = Some (with_messages conv (base ++ [m'])) /\
    shaped p' m'.
Proof.
  intros Hc Hm (l & Hl & Hsimple & H1 & H2 & H3 & D1 & D2 & D3 & Hs) Hnext.
  pose proof (with_messages_same conv _ Hm) as Hsame.
  unfold next in Hnext. rewrite dispatch_event.
  destruct (type_is "title_complete" event) eqn:Htitle.
  - apply type_is_true in Htitle as [-> _]. simplify_eq.
    exists (perform LoadConversations st), m. simpl.
    rewrite Hsame. repeat split; [done|]. by exists l.
  - destruct p; simpl in Hnext;
      repeat match type of Hnext with
        | (if ?c && _ then _ else _) = _ =>
            destruct c eqn:Htype; simpl in Hnext; [|done]
        | (if ?c then _ else _) = _ =>
            destruct c eqn:Htype'; simpl in Hnext; [|done]
        end;
      simplify_eq;
      try (apply type_is_true in Htype as [-> Hnn]);
      try (apply type_is_true in Htype' as [-> Hnn']);
      unfold onEvent; simpl;
      rewrite ?(setCurrentConversation_updateLast _ _ _ _ _ Hc Hm);
      unfold assign_loading; simpl;
      try (unfold has_data in *;
           destruct (get event "data") as [data|] eqn:Hdata; [|done]);
      try (destruct (get_not_null event "metadata" Hnn) as [meta ->]);
      try (destruct (get_not_null event "models" Hnn') as [models ->]);
      simpl; rewrite ?Hl; simpl;
      eexists _, _; (split; [reflexivity|]);
      (split; [first [reflexivity|simpl; rewrite Hc, Hsame; reflexivity]|]);
      eexists; simpl; repeat split; simpl in *; try done; intros;
      try (by apply negb_true_iff); auto.
Qed.

Lemma follow_shaped (events : list json) :
  forall (p p' : phase) (st : State) (conv : Conversation)
         (base : list Message) (m : Message),
    currentConversation st = Some conv ->
    messages conv = base ++ [m] ->
    shaped p m ->
    follow p events = Some p' ->
    exists st' m',
      App.deliver events (Some st) = Some st' /\
      currentConversation st' = Some (with_messages conv (base ++ [m'])) /\
      shaped p' m'.
Proof.
  induction events as [|event events IH];
    intros p p' st conv base m Hc Hm Hshape Hfollow; simpl in Hfollow.
  - simplify_eq. exists st, m. repeat split; [|done].
    by rewrite (with_messages_same conv _ Hm).
  - destruct (next p event) as [q|] eqn:Hnext; [|done]. simpl in Hfollow.
    destruct (next_shaped p q event st conv base m Hc Hm Hshape Hnext)
      as (st1 & m1 & Hst1 & Hc1 & Hshape1).
    destruct (IH q p' st1 _ base m1 Hc1 eq_refl Hshape1 Hfollow)
      as (st' & m' & Hst' & Hc' & Hshape').
    exists st', m'. rewrite deliver_cons, Hst1. by repeat split.
Qed.

Lemma terminal_phase (events : list json) (p : phase) :
  follow Fresh events = Some p ->
  ends_in events "stage3_complete" \/ ends_in events "complete" ->
  p = Stage3Done \/ p = Completed.
Proof.
  intros Hfollow Hend.
  assert (exists events' event,
            events = events' ++ [event] /\
            (type_is "stage3_complete" event = true \/
             type_is "complete" event = true))
    as (events' & event & -> & Htype).
  { destruct Hend as [(event & [events' ->]%last_Some & Ht)
                     |(event & [events' ->]%last_Some & Ht)];
      exists events', event; auto. }
  rewrite follow_app in Hfollow.
  destruct (follow Fresh events') as [q|]; [|done].
  simpl in Hfollow. destruct (next q event) as [p0|] eqn:Hnext; [|done].
  simpl in Hfollow. simplify_eq. unfold next in Hnext.
  destruct Htype as [Ht|Ht];
    rewrite (type_is_other _ "title_complete" _ Ht eq_refl) in Hnext;
    destruct q; simpl in Hnext;
    rewrite ?(type_is_other _ "stage1_start" _ Ht eq_refl) in Hnext;
    rewrite ?(type_is_other _ "stage1_complete" _ Ht eq_refl) in Hnext;
    rewrite ?(type_is_other _ "stage2_start" _ Ht eq_refl) in Hnext;
    rewrite ?(type_is_other _ "stage2_complete" _ Ht eq_refl) in Hnext;
    rewrite ?(type_is_other _ "stage3_start" _ Ht eq_refl) in Hnext;
    rewrite ?(type_is_other _ "stage3_complete" _ Ht eq_refl) in Hnext;
    rewrite ?(type_is_other _ "complete" _ Ht eq_refl) in Hnext;
    simpl in Hnext; try done;
    repeat case_match; simplify_eq; auto.
Qed.

Lemma same_last (conv : Conversation) (base : list Message)
    (m m' : Message) :
  Some (with_messages conv (base ++ [m]))
  = Some (with_messages conv (base ++ [m'])) ->
  m = m'.
Proof.
  intros [= H]. apply app_inv_head in H. by injection H.
Qed.

(** A delivered event that is not [simple_mode_complete] keeps the
    simple response of the pending message. *)
Lemma dispatch_keeps_simpleResponse (event : json) (st : State)
    (conv : Conversation) (base : list Message) (m : Message)
    (l : Loading.t) :
  currentConversation st = Some conv ->
  messages conv = base ++ [m] ->
  loading m = Some l ->
  type_is "simple_mode_complete" event = false ->
  exists st' m' l',
    dispatch onEvent' perform' event (Some st) = Some st' /\
    currentConversation st' = Some (with_messages conv (base ++ [m'])) /\
    loading m' = Some l' /\
    simpleResponse m' = simpleResponse m.
Proof.
  intros Hc Hm Hl Htype. rewrite dispatch_event.
  unfold type_is in Htype.
  destruct (get event "type") as [t|] eqn:Ht.
  - destruct (onEvent_total t event st conv base m l Hc Hm Hl
                (get_type_not_null _ _ Ht)) as [st' Hst'].
    destruct (onEvent_fields t event st st' conv base m Hc Hm Hst')
      as (m' & Hc' & _ & _ & _ & Hl' & Hsimple & _).
    destruct (Hl' (ex_intro _ l Hl)) as [l' Hl''].
    exists st', m', l'. rewrite Htype in Hsimple. by repeat split.
  - exists (perform parse_failure st), m, l. simpl.
    by rewrite Hc, (with_messages_same conv _ Hm).
Qed.

Lemma deliver_keeps_simpleResponse (events : list json) :
  forall (st : State) (conv : Conversation) (base : list Message)
         (m : Message) (l : Loading.t),
    currentConversation st = Some conv ->
    messages conv = base ++ [m] ->
    loading m = Some l ->
    Forall (fun event => type_is "simple_mode_complete" event = false)
      events ->
    exists st' m' l',
      App.deliver events (Some st) = Some st' /\
      currentConversation st' = Some (with_messages conv (base ++ [m'])) /\
      loading m' = Some l' /\
      simpleResponse m' = simpleResponse m.
Proof.
  induction events as [|event events IH];
    intros st conv base m l Hc Hm Hl Hall.
  - exists st, m, l. simpl.
    by rewrite Hc, (with_messages_same conv _ Hm).
  - apply Forall_cons in Hall as [Hevent Hall].
    destruct (dispatch_keeps_simpleResponse event st conv base m l
                Hc Hm Hl Hevent) as (st1 & m1 & l1 & Hst1 & Hc1 & Hl1 & Hs1).
    destruct (IH st1 _ base m1 l1 Hc1 eq_refl Hl1 Hall)
      as (st' & m' & l' & Hst' & Hc' & Hl' & Hs').
    exists st', m', l'. rewrite deliver_cons, Hst1.
    repeat split; try done. by rewrite Hs', Hs1.
Qed.

(** What a delivered [..._complete] event of a known type writes. *)
Lemma dispatch_typed (name : string) (event : json) (st : State)
    (conv : Conversation) (base : list Message) (m : Message)
    (l : Loading.t) :
  currentConversation st = Some conv ->
  messages conv = base ++ [m] ->
  loading m = Some l ->
  type_is name event = true ->
  exists st' m' l',
    dispatch onEvent' perform' event (Some st) = Some st' /\
    onEvent (of_json (JString name)) event st = Some st' /\
    currentConversation st' = Some (with_messages conv (base ++ [m'])) /\
    loading m' = Some l'.
Proof.
  intros Hc Hm Hl [Ht Hnn]%type_is_true. rewrite dispatch_event, Ht.
  destruct (onEvent_total (of_json (JString name)) event st conv base m l
              Hc Hm Hl Hnn) as [st' Hst'].
  destruct (onEvent_fields _ event st st' conv base m Hc Hm Hst')
    as (m' & Hc' & _ & _ & _ & Hl' & _).
  destruct (Hl' (ex_intro _ l Hl)) as [l' Hl''].
  by exists st', m', l'.
Qed.

End SequenceFacts.

Section SequenceClaims.

(** C4. A staged turn in the documented order (stage 1, 2 and 3, each
    started and then completed with its data, [title_complete] at any
    point, [complete] after the third stage) that ends in
    [stage3_complete] or in [complete], folded into the fresh pending
    message, leaves a staged message: the three stages are set, no
    simple response is, and the four loading flags are off. *)
Theorem staged_turn_leaves_a_staged_message
    (events : list json) (st : State) (conv : Conversation)
    (base : list Message) :
  currentConversation st = Some conv ->
  messages conv = base ++ [assistantMessage] ->
  in_stage_order events ->
  ends_in events "stage3_complete" \/ ends_in events "complete" ->
  exists st' conv' m l,
    App.deliver events (Some st) = Some st' /\
    currentConversation st' = Some conv' /\
    messages conv' = base ++ [m] /\
    nullish (stage1 m) = false /\
    nullish (stage2 m) = false /\
    nullish (stage3 m) = false /\
    nullish (simpleResponse m) = true /\
    loading m = Some l /\ Loading.all_clear l.
Proof.
  intros Hc Hm [p Hfollow] Hend.
  assert (Hfresh : shaped Fresh assistantMessage).
  { eexists. by repeat split. }
  destruct (follow_shaped events Fresh p st conv base assistantMessage
              Hc Hm Hfresh Hfollow)
    as (st' & m & Hst' & Hc' & l & Hl & Hsimple & H1 & H2 & H3 & D1 & D2
        & D3 & Hs).
  exists st', (with_messages conv (base ++ [m])), m, l.
  destruct (terminal_phase events p Hfollow Hend) as [-> | ->];
    repeat split; auto.
Qed.

Lemma staged_turn_leaves_a_staged_message_witness :
  (currentConversation Sample.sending
   = Some {| conv_id := "c1";
             messages := [userMessage Sample.hi; assistantMessage] |} /\
   [userMessage Sample.hi; assistantMessage]
   = [userMessage Sample.hi] ++ [assistantMessage] /\
   in_stage_order Sample.staged_turn /\
   ends_in Sample.staged_turn "complete") /\
  exists st' conv' m l,
    App.deliver Sample.staged_turn (Some Sample.sending) = Some st' /\
    currentConversation st' = Some conv' /\
    messages conv' = [userMessage Sample.hi] ++ [m] /\
    nullish (stage1 m) = false /\
    nullish (stage2 m) = false /\
    nullish (stage3 m) = false /\
    nullish (simpleResponse m) = true /\
    loading m = Some l /\ Loading.all_clear l.
Proof.
  assert (Horder : in_stage_order Sample.staged_turn).
  { exists Completed. vm_compute. reflexivity. }
  assert (Hend : ends_in Sample.staged_turn "complete").
  { exists Sample.complete. split; vm_compute; reflexivity. }
  split; [by repeat split|].
  apply (staged_turn_leaves_a_staged_message Sample.staged_turn
           Sample.sending _ [userMessage Sample.hi]
           eq_refl eq_refl Horder (or_intror Hend)).
Defined.

(** C5 (as amended). Once [simple_mode_complete] has set the simple
    response, no later event other than another [simple_mode_complete]
    changes it: the message keeps its simple answer through any stage
    events. The stage events are not refused, though: a
    [stage3_complete] that comes later still stores its data next to
    the simple response. *)
Theorem simple_response_outlives_stage_events
    (first final : json) (d d3 : value) (events : list json)
    (st : State) (conv : Conversation) (base : list Message) (m : Message)
    (l : Loading.t) :
  currentConversation st = Some conv ->
  messages conv = base ++ [m] ->
  loading m = Some l ->
  type_is "simple_mode_complete" first = true ->
  get first "data" = Some d ->
  Forall (fun event => type_is "simple_mode_complete" event = false) events ->
  type_is "stage3_complete" final = true ->
  get final "data" = Some d3 ->
  (exists st' conv' m',
     App.deliver (first :: events) (Some st) = Some st' /\
     currentConversation st' = Some conv' /\
     messages conv' = base ++ [m'] /\
     simpleResponse m' = d)
  /\
  (exists st' conv' m',
     App.deliver (first :: events ++ [final]) (Some st) = Some st' /\
     currentConversation st' = Some conv' /\
     messages conv' = base ++ [m'] /\
     simpleResponse m' = d /\ stage3 m' = d3).
Proof.
  intros Hc Hm Hl Hfirst Hd Hall Hfinal Hd3.
  destruct (dispatch_typed _ first st conv base m l Hc Hm Hl Hfirst)
    as (st1 & m1 & l1 & Hst1 & Hev1 & Hc1 & Hl1).
  destruct (onEvent_fields _ first st st1 conv base m Hc Hm Hev1)
    as (m1' & Hc1' & _ & _ & _ & _ & Hs1 & _).
  rewrite Hc1 in Hc1'. apply same_last in Hc1' as <-.
  simpl in Hs1. rewrite Hd in Hs1. simpl in Hs1.
  destruct (deliver_keeps_simpleResponse events st1 _ base m1 l1
              Hc1 eq_refl Hl1 Hall)
    as (st2 & m2 & l2 & Hst2 & Hc2 & Hl2 & Hs2).
  split.
  - exists st2, (with_messages conv (base ++ [m2])), m2.
    rewrite deliver_cons, Hst1. repeat split; try done. by rewrite Hs2.
  - destruct (dispatch_typed _ final st2 _ base m2 l2 Hc2 eq_refl Hl2 Hfinal)
      as (st3 & m3 & l3 & Hst3 & Hev3 & Hc3 & Hl3).
    destruct (onEvent_fields _ final st2 st3 _ base m2 Hc2 eq_refl Hev3)
      as (m3' & Hc3' & _ & _ & _ & _ & Hs3 & _ & _ & _ & H3).
    rewrite Hc3 in Hc3'. apply same_last in Hc3' as <-.
    simpl in Hs3, H3. rewrite Hd3 in H3. simpl in H3.
    exists st3, (with_messages conv (base ++ [m3])), m3.
    rewrite deliver_cons, deliver_app, Hst1, Hst2. simpl.
    repeat split; try done. by rewrite Hs3, Hs2.
Qed.

Lemma simple_response_outlives_stage_events_witness :
  (currentConversation Sample.sending
   = Some {| conv_id := "c1";
             messages := [userMessage Sample.hi; assistantMessage] |} /\
   [userMessage Sample.hi; assistantMessage]
   = [userMessage Sample.hi] ++ [assistantMessage] /\
   type_is "simple_mode_complete" Sample.simple_mode_complete = true /\
   Forall (fun event => type_is "simple_mode_complete" event = false)
     [Sample.stage1_start; Sample.stage1_complete] /\
   type_is "stage3_complete" Sample.stage3_complete = true) /\
  (exists st' conv' m',
     App.deliver
       (Sample.simple_mode_complete
          :: [Sample.stage1_start; Sample.stage1_complete])
       (Some Sample.sending) = Some st' /\
     currentConversation st' = Some conv' /\
     messages conv' = [userMessage Sample.hi] ++ [m'] /\
     simpleResponse m'
     = of_json (JObject [("display_name", JString "c");
                         ("response", JString "hello")]))
  /\
  (exists st' conv' m',
     App.deliver
       (Sample.simple_mode_complete
          :: [Sample.stage1_start; Sample.stage1_complete]
          ++ [Sample.stage3_complete])
       (Some Sample.sending) = Some st' /\
     currentConversation st' = Some conv' /\
     messages conv' = [userMessage Sample.hi] ++ [m'] /\
     simpleResponse m'
     = of_json (JObject [("display_name", JString "c");
                         ("response", JString "hello")]) /\
     stage3 m'
     = of_json (JObject [("model", JString "c");
                         ("response", JString "final")])).
Proof.
  split; [repeat split; repeat constructor|].
  apply (simple_response_outlives_stage_events
           Sample.simple_mode_complete Sample.stage3_complete _ _
           [Sample.stage1_start; Sample.stage1_complete]
           Sample.sending _ [userMessage Sample.hi] assistantMessage _
           eq_refl eq_refl eq_refl);
    repeat constructor.
Defined.

(** C5 (as stated) fails: after [simple_mode_complete], a staged turn
    that follows is folded into the same message, which then holds the
    simple response and the data of the three stages together. *)
Lemma simple_and_staged_data_together :
  exists st' m',
    App.deliver
      [Sample.simple_mode_start; Sample.simple_mode_complete;
       Sample.stage1_start; Sample.stage1_complete;
       Sample.stage2_start; Sample.stage2_complete;
       Sample.stage3_start; Sample.stage3_complete]
      (Some Sample.sending) = Some st' /\
    lastMessage st' = Some m' /\
    nullish (simpleResponse m') = false /\
    nullish (stage1 m') = false /\
    nullish (stage2 m') = false /\
    nullish (stage3 m') = false.
Proof.
  eexists _, _. split; [vm_compute; reflexivity|].
  split; [vm_compute; reflexivity|]. by repeat split.
Qed.

End SequenceClaims.

(** ** Sending and regenerating *)

Section TurnFacts.

Lemma slice0_nonneg {A} (l : list A) (i : Z) :
  0 <= i -> slice0 l i = take (Z.to_nat i) l.
Proof.
  intros Hi. unfold slice0.
  destruct (Z.ltb_spec i 0) as [?|_]; [lia|].
  destruct (Z.le_gt_cases i (Z.of_nat (length l))) as [Hle|Hgt].
  - by rewrite Z.min_l.
  - rewrite Z.min_r, Nat2Z.id by lia.
    rewrite !take_ge; [done|lia|lia].
Qed.

Lemma slice0_drop_two {A} (l : list A) (a b : A) :
  slice0 ((l ++ [a]) ++ [b]) (-2) = l.
Proof.
  unfold slice0. simpl. rewrite !length_app. simpl.
  rewrite Z.max_l by lia.
  replace (Z.to_nat (Z.of_nat (length l + 1 + 1) + -2)) with (length l)
    by lia.
  by rewrite <- app_assoc, take_app_length.
Qed.

Lemma thrown_is_no_abort (e : ending) (x : exn) :
  thrown e = Some x -> String.eqb (name x) "AbortError" = false.
Proof.
  destruct e as [|e]; simpl; [done|].
  destruct (String.eqb (name e) "AbortError") eqn:He; [done|].
  by intros [= <-].
Qed.

Lemma walk_back_found (messages : list Message) (n k : nat) (u : Message) :
  (k < n)%nat ->
  messages !! k = Some u ->
  role u = "user" ->
  (forall (j : nat) (m : Message),
      (k < j)%nat -> (j < n)%nat -> messages !! j = Some m ->
      role m <> "user") ->
  walk_back messages n = Z.of_nat k.
Proof.
  intros Hk Hu Hrole. induction n as [|n IH]; intros Hbetween; [lia|].
  simpl. destruct (decide (k = n)) as [->|Hne].
  - rewrite Hu. simpl. by rewrite Hrole.
  - assert (is_user (messages !! n) = false) as ->.
    { destruct (messages !! n) as [m|] eqn:Hn; [|done]. simpl.
      apply String.eqb_neq, (Hbetween n m); [lia|lia|done]. }
    apply IH; [lia|]. intros j m ? ?. apply Hbetween; lia.
Qed.

Lemma walk_back_none (messages : list Message) (n : nat) :
  (forall (j : nat) (m : Message),
      (j < n)%nat -> messages !! j = Some m -> role m <> "user") ->
  walk_back messages n = -1.
Proof.
  induction n as [|n IH]; intros Hnone; [done|]. simpl.
  assert (is_user (messages !! n) = false) as ->.
  { destruct (messages !! n) as [m|] eqn:Hn; [|done]. simpl.
    apply String.eqb_neq, (Hnone n m); [lia|done]. }
  apply IH. intros j m ?. apply Hnone; lia.
Qed.

Lemma findUserMessageIndex_found (messages : list Message) (i : Z)
    (k : nat) (u : Message) :
  nearest_user_before messages i k u ->
  findUserMessageIndex messages i = Z.of_nat k.
Proof.
  intros (Hk & Hu & Hrole & Hbetween). unfold findUserMessageIndex.
  destruct (Z.ltb_spec (i - 1) 0) as [?|_]; [lia|].
  apply (walk_back_found _ _ _ u); [lia|done|done|].
  intros j m ? ?. apply Hbetween; lia.
Qed.

Lemma findUserMessageIndex_none (messages : list Message) (i : Z) :
  no_user_before messages i ->
  (findUserMessageIndex messages i <? 0) = true.
Proof.
  intros Hnone. unfold findUserMessageIndex.
  destruct (Z.ltb_spec (i - 1) 0) as [?|?]; [by apply Z.ltb_lt|].
  rewrite walk_back_none; [done|]. intros j m ?. apply Hnone; lia.
Qed.

(** The two optimistic appends of [handleSendMessage]. *)
Lemma optimistic_appends (content : value) (st : State)
    (conv : Conversation) :
  currentConversation st = Some conv ->
  setCurrentConversation (append (userMessage content)) st
    ≫= setCurrentConversation (append assistantMessage)
  = Some (set_currentConversation
            (with_messages conv
               ((messages conv ++ [userMessage content])
                  ++ [assistantMessage])) st).
Proof.
  intros Hc. unfold setCurrentConversation, append. rewrite Hc. reflexivity.
Qed.

End TurnFacts.

Section TurnClaims.

(** C6 (as amended). The [catch] block of [handleSendMessage] removes
    the last two messages whenever the stream client throws an error
    that is not an abort: when the request cannot be opened ([fetch]
    rejects, or the response is not OK) and also when a read fails
    after events have been applied. In both cases this restores the
    conversation as it was before the send, and the turn is closed.
    Otherwise (the channel closes, or the request is aborted) the user
    message and the pending message stay. *)
Theorem rollback_on_every_failure
    (content : value) (net : fetched) (st : State) (cid : string)
    (conv : Conversation) :
  conversation_selected st = Some cid ->
  currentConversation st = Some conv ->
  exists st',
    handleSendMessage content net st = Some st' /\
    if fails net
    then currentConversation st' = Some conv /\
         isLoading st' = false /\ abortControllerRef st' = false
    else exists m l,
        currentConversation st'
        = Some (with_messages conv
                  (messages conv ++ [userMessage content; m])) /\
        loading m = Some l.
Proof.
  intros Hsel Hc. unfold handleSendMessage. rewrite Hsel.
  rewrite (optimistic_appends content _ conv) by done.
  set (st0 := set_currentConversation _ _).
  assert (Hp : pending_on conv (messages conv ++ [userMessage content])
                 (perform (Post cid content) st0)).
  { eexists assistantMessage, _. split; reflexivity. }
  assert (Hback : forall st1,
             pending_on conv (messages conv ++ [userMessage content]) st1 ->
             exists st',
               (st ← Some st1;
                let st := perform (ConsoleError "Failed to send message:") st in
                let st :=
                  perform (Toast failure
                    "Mesaj gönderilemedi. Lütfen tekrar deneyin.") st in
                st ← setCurrentConversation
                       (fun prev =>
                          Some (with_messages prev
                                  (slice0 (messages prev) (-2)))) st;
                Some (set_abortControllerRef false (setIsLoading false st)))
               = Some st' /\
               currentConversation st' = Some conv /\
               isLoading st' = false /\ abortControllerRef st' = false).
  { intros st1 (m & l & Hc1 & _). eexists. simpl.
    unfold setCurrentConversation. simpl. rewrite Hc1. simpl.
    split; [reflexivity|]. simpl. rewrite slice0_drop_two.
    change (with_messages (with_messages conv _) (messages conv))
      with (with_messages conv (messages conv)).
    by rewrite (with_messages_same conv). }
  assert (Hstay : forall st1,
             pending_on conv (messages conv ++ [userMessage content]) st1 ->
             exists m l,
               currentConversation st1
               = Some (with_messages conv
                         (messages conv ++ [userMessage content; m])) /\
               loading m = Some l).
  { intros st1 (m & l & Hc1 & Hl). exists m, l.
    by rewrite Hc1, <- app_assoc. }
  unfold sendMessageStream, fails, rejection.
  change (perform' (Post cid content) (Some st0))
    with (Some (perform (Post cid content) st0)).
  destruct net as [e|[|] b]; simpl.
  - destruct (String.eqb (name e) "AbortError"); simpl.
    + eexists. split; [reflexivity|]. by apply Hstay.
    + destruct (Hback _ Hp) as (st' & Hst' & Hres).
      exists st'. split; [exact Hst'|exact Hres].
  - destruct (pump_pending b _ conv _ Hp) as (st1 & -> & Hp1).
    destruct (thrown (end_of_body b)) as [x|] eqn:Hx.
    + rewrite (thrown_is_no_abort _ _ Hx). simpl.
      destruct (Hback _ Hp1) as (st' & Hst' & Hres).
      exists st'. split; [exact Hst'|exact Hres].
    + eexists. split; [reflexivity|]. by apply Hstay.
  - destruct (Hback _ Hp) as (st' & Hst' & Hres).
    exists st'. split; [exact Hst'|exact Hres].
Qed.

Lemma rollback_on_every_failure_witness :
  (conversation_selected (Sample.state_with [userMessage Sample.hi; Sample.answered])
   = Some "c1" /\
   currentConversation (Sample.state_with [userMessage Sample.hi; Sample.answered])
   = Some {| conv_id := "c1";
             messages := [userMessage Sample.hi; Sample.answered] |}) /\
  exists st',
    handleSendMessage Sample.hi
      (Responds true {| chunks := [Sample.whole_record];
                        end_of_body := ReadRejects Sample.network_error |})
      (Sample.state_with [userMessage Sample.hi; Sample.answered])
    = Some st' /\
    currentConversation st'
    = Some {| conv_id := "c1";
              messages := [userMessage Sample.hi; Sample.answered] |} /\
    isLoading st' = false /\ abortControllerRef st' = false.
Proof.
  split; [by split|].
  apply (rollback_on_every_failure Sample.hi
           (Responds true {| chunks := [Sample.whole_record];
                             end_of_body := ReadRejects Sample.network_error |})
           (Sample.state_with [userMessage Sample.hi; Sample.answered])
           "c1" _ eq_refl eq_refl).
Defined.

(** C6 (as stated) fails in its last part: here the channel delivers
    a [stage1_start] event, which is applied, and then a read fails;
    the two messages of the turn are removed all the same. *)
Lemma rollback_after_an_accepted_event :
  decode {| chunks := [Sample.whole_record];
            end_of_body := ReadRejects Sample.network_error |}
  = ([Emitted (of_json (JString "stage1_start"))
        (JObject [("type", JString "stage1_start")])],
     Some Sample.network_error) /\
  messages_of
    (handleSendMessage Sample.hi
       (Responds true {| chunks := [Sample.whole_record];
                         end_of_body := ReadRejects Sample.network_error |})
       (Sample.state_with [userMessage Sample.hi; Sample.answered]))
  = Some [userMessage Sample.hi; Sample.answered].
Proof. split; vm_compute; reflexivity. Qed.

(** C2 (as amended). With the nearest user message before
    [messageIndex] at [k], regeneration keeps the first [messageIndex]
    messages (it drops the answer at [messageIndex] and what follows
    it; the user message at [k] stays in the conversation) and then
    sends the content of that user message as a new turn. With no user
    message before [messageIndex], it reports the failure and leaves
    the conversation as it is. *)
Theorem regenerate_cuts_at_the_answer
    (messageIndex : Z) (net : fetched) (st : State) (cid : string)
    (conv : Conversation) :
  conversation_selected st = Some cid ->
  currentConversation st = Some conv ->
  (forall (k : nat) (u : Message),
      nearest_user_before (messages conv) messageIndex k u ->
      take (Z.to_nat messageIndex) (messages conv) !! k = Some u /\
      handleRegenerateMessage messageIndex net st
      = handleSendMessage (content u) net
          (perform (Toast plain "Yanıt yeniden oluşturuluyor...")
             (set_currentConversation
                (with_messages conv
                   (take (Z.to_nat messageIndex) (messages conv))) st)))
  /\
  (no_user_before (messages conv) messageIndex ->
   handleRegenerateMessage messageIndex net st
   = Some (perform (Toast failure "Kullanıcı mesajı bulunamadı") st)).
Proof.
  intros Hsel Hc. unfold handleRegenerateMessage. rewrite Hsel, Hc. split.
  - intros k u Hnear.
    rewrite (findUserMessageIndex_found _ _ _ _ Hnear).
    destruct Hnear as (Hk & Hu & _). split.
    + rewrite lookup_take_lt by lia. done.
    + destruct (Z.ltb_spec (Z.of_nat k) 0) as [?|_]; [lia|].
      rewrite Nat2Z.id, Hu. simpl.
      unfold setCurrentConversation. rewrite Hc. simpl.
      by rewrite slice0_nonneg by lia.
  - intros Hnone. by rewrite (findUserMessageIndex_none _ _ Hnone).
Qed.

Lemma regenerate_cuts_at_the_answer_witness :
  (conversation_selected (Sample.state_with [userMessage Sample.hi; Sample.answered])
   = Some "c1" /\
   nearest_user_before [userMessage Sample.hi; Sample.answered] 1 0
     (userMessage Sample.hi) /\
   no_user_before [Sample.answered] 1) /\
  handleRegenerateMessage 1 (FetchRejects AbortError)
    (Sample.state_with [userMessage Sample.hi; Sample.answered])
  = handleSendMessage Sample.hi (FetchRejects AbortError)
      (perform (Toast plain "Yanıt yeniden oluşturuluyor...")
         (Sample.state_with [userMessage Sample.hi]))
  /\
  handleRegenerateMessage 1 (FetchRejects AbortError)
    (Sample.state_with [Sample.answered])
  = Some (perform (Toast failure "Kullanıcı mesajı bulunamadı")
            (Sample.state_with [Sample.answered])).
Proof.
  assert (Hnear : nearest_user_before
                    [userMessage Sample.hi; Sample.answered] 1 0
                    (userMessage Sample.hi)).
  { repeat split. intros j m ? ?. lia. }
  assert (Hnone : no_user_before [Sample.answered] 1).
  { intros [|j] m ? Hm; [|lia]. by injection Hm as <-. }
  split; [split; [reflexivity|split; [exact Hnear|exact Hnone]]|]. split.
  - destruct (regenerate_cuts_at_the_answer 1 (FetchRejects AbortError)
                (Sample.state_with [userMessage Sample.hi; Sample.answered])
                "c1" _ eq_refl eq_refl) as [Hfound _].
    destruct (Hfound 0%nat (userMessage Sample.hi) Hnear) as [_ Heq].
    exact Heq.
  - destruct (regenerate_cuts_at_the_answer 1 (FetchRejects AbortError)
                (Sample.state_with [Sample.answered])
                "c1" _ eq_refl eq_refl) as [_ Hfails].
    exact (Hfails Hnone).
Defined.

(** C2 (as stated) fails: regenerating the answer at position 1 of a
    conversation of a question and its answer leaves the question in
    place and appends it again, where cutting the conversation to the
    length 0 of the prefix before the question would leave one copy. *)
Lemma regenerate_keeps_the_user_message :
  findUserMessageIndex [userMessage Sample.hi; Sample.answered] 1 = 0 /\
  messages_of
    (handleRegenerateMessage 1
       (Responds true {| chunks := []; end_of_body := Closed |})
       (Sample.state_with [userMessage Sample.hi; Sample.answered]))
  = Some [userMessage Sample.hi; userMessage Sample.hi; assistantMessage] /\
  messages_of
    (regenerate_cutting_at_user 1
       (Responds true {| chunks := []; end_of_body := Closed |})
       (Sample.state_with [userMessage Sample.hi; Sample.answered]))
  = Some [userMessage Sample.hi; assistantMessage] /\
  handleRegenerateMessage 1
    (Responds true {| chunks := []; end_of_body := Closed |})
    (Sample.state_with [userMessage Sample.hi; Sample.answered])
  <> regenerate_cutting_at_user 1
       (Responds true {| chunks := []; end_of_body := Closed |})
       (Sample.state_with [userMessage Sample.hi; Sample.answered]).
Proof.
  split; [vm_compute; reflexivity|].
  split; [vm_compute; reflexivity|].
  split; [vm_compute; reflexivity|].
  vm_compute. discriminate.
Qed.

End TurnClaims.

(** * More properties of the client *)

Section WireFacts.
Import Wire.
Context {St : Type}.
Variable onEvent : value -> json -> St -> St.
Variable perform : effect -> St -> St.

Lemma replay_app (tr1 tr2 : list output) (st : St) :
  replay onEvent perform (tr1 ++ tr2) st
  = replay onEvent perform tr2 (replay onEvent perform tr1 st).
Proof. unfold replay. by rewrite fold_left_app. Qed.

Lemma handle_line_replay (line : string) (st : St) :
  handle_line onEvent perform line st
  = replay onEvent perform (line_trace line) st.
Proof.
  unfold line_trace, handle_line, dispatch, record_event, record_effect.
  by repeat case_match.
Qed.

Lemma handle_lines_replay (lines : list string) (st : St) :
  fold_left (fun st line => handle_line onEvent perform line st) lines st
  = replay onEvent perform (flat_map line_trace lines) st.
Proof.
  revert st; induction lines as [|line lines IH]; intros st; simpl; [done|].
  by rewrite IH, replay_app, handle_line_replay.
Qed.

Lemma handle_chunks_replay (chunks : list string) (st : St) :
  fold_left (fun st chunk => handle_chunk onEvent perform chunk st) chunks st
  = replay onEvent perform (trace chunks) st.
Proof.
  rewrite trace_chunks.
  revert st; induction chunks as [|chunk chunks IH]; intros st; simpl; [done|].
  rewrite IH, replay_app. f_equal. unfold handle_chunk.
  by rewrite handle_lines_replay, chunk_trace_lines.
Qed.

Lemma pump_replay (b : body) (st : St) :
  pump onEvent perform b st
  = (replay onEvent perform (fst (decode b)) st, thrown (end_of_body b)).
Proof.
  unfold pump. rewrite handle_chunks_replay, trace_chunks.
  unfold decode, pump. rewrite handle_chunks_trace. simpl.
  destruct (end_of_body b) as [|e]; simpl; [done|].
  destruct (String.eqb (name e) "AbortError"); simpl; [|done].
  unfold record_event. by rewrite replay_app.
Qed.


End WireFacts.

Section FramingFacts.
Import Wire.

Lemma split_nonempty (text : string) : split text <> [].
Proof.
  destruct text as [|c text]; simpl; [done|].
  destruct (Ascii.eqb c newline); [done|]. by destruct (split text).
Qed.

Lemma split_app (a b : string) :
  split (a +:+ String newline b) = split a ++ split b.
Proof.
  induction a as [|c a IH]; simpl; [done|].
  destruct (Ascii.eqb c newline); [by rewrite IH|].
  rewrite IH. pose proof (split_nonempty a). by destruct (split a).
Qed.

Lemma chunk_trace_app (a b : string) :
  chunk_trace (a +:+ String newline b) = chunk_trace a ++ chunk_trace b.
Proof. by rewrite !chunk_trace_lines, split_app, flat_map_app. Qed.

Lemma chunk_trace_empty : chunk_trace EmptyString = [].
Proof. reflexivity. Qed.

Lemma string_append_cons (x : ascii) (a b : string) :
  String x a +:+ b = String x (a +:+ b).
Proof. reflexivity. Qed.

Lemma string_append_assoc (a b c : string) :
  (a +:+ b) +:+ c = a +:+ (b +:+ c).
Proof.
  induction a as [|x a IH]; [reflexivity|].
  by rewrite !string_append_cons, IH.
Qed.

Lemma string_append_nil (a : string) : a +:+ EmptyString = a.
Proof.
  induction a as [|x a IH]; [reflexivity|].
  by rewrite string_append_cons, IH.
Qed.

Lemma join_cons (line line' : string) (lines : list string) :
  join (line :: line' :: lines)
  = line +:+ String newline (join (line' :: lines)).
Proof. reflexivity. Qed.

(** X1. Cutting a chunk into lines loses nothing and invents nothing:
    there is always at least one line, no line holds a newline, and the
    lines joined by newlines are the chunk. *)
Theorem split_keeps_the_text (text : string) :
  split text <> [] /\
  Forall (fun line => has_newline line = false) (split text) /\
  join (split text) = text.
Proof.
  split; [apply split_nonempty|].
  induction text as [|c text [IHf IHj]]; [by repeat constructor|].
  pose proof (split_nonempty text) as Hne.
  cbn [split]. destruct (Ascii.eqb c newline) eqn:Hc.
  - apply Ascii.eqb_eq in Hc as ->. split; [by constructor|].
    destruct (split text) as [|line lines]; [done|].
    by rewrite join_cons, IHj.
  - destruct (split text) as [|line lines]; [done|].
    apply Forall_cons in IHf as [Hline Hlines]. split.
    + constructor; [|done]. cbn [has_newline]. by rewrite Hc, Hline.
    + destruct lines as [|line' lines].
      * unfold join in *. simpl in *. by rewrite IHj.
      * rewrite join_cons in *. by rewrite string_append_cons, IHj.
Qed.

(** X2. A channel cut right after a newline decodes as the channel
    that is not cut there: only a cut inside a line matters. *)
Theorem cut_after_a_newline_is_harmless
    (before after : list string) (e : ending) (a b : string) :
  decode {| chunks := before ++ [a +:+ String newline b] ++ after;
            end_of_body := e |}
  = decode {| chunks := before ++ [a +:+ String newline EmptyString; b]
                          ++ after;
              end_of_body := e |}.
Proof.
  rewrite decode_around.
  replace (before ++ [a +:+ String newline EmptyString; b] ++ after)
    with ((before ++ [a +:+ String newline EmptyString]) ++ [b] ++ after)
    by (by rewrite <- app_assoc).
  rewrite decode_around, trace_app, (trace_chunks [_]). cbn [flat_map].
  rewrite !chunk_trace_app, chunk_trace_empty, !app_nil_r.
  by rewrite <- !app_assoc.
Qed.

Lemma frame_trace (r : record) (rest : string) :
  well_formed r ->
  chunk_trace (frame (payload r) +:+ rest) = emitted r :: chunk_trace rest.
Proof.
  intros (Hnl & Hparse & Htype).
  replace (frame (payload r) +:+ rest)
    with (("data: " +:+ payload r)
            +:+ String newline (EmptyString +:+ String newline rest))
    by (unfold frame; by rewrite !string_append_assoc).
  rewrite !chunk_trace_app, chunk_trace_empty.
  rewrite chunk_trace_unterminated by (by rewrite has_newline_app, Hnl).
  by rewrite line_trace_data, Hparse, Htype.
Qed.

Lemma frames_trace (rs : list record) :
  Forall well_formed rs ->
  chunk_trace (frames (map payload rs)) = map emitted rs.
Proof.
  induction 1 as [|r rs Hr Hrs IH]; [done|].
  cbn [frames map fold_right]. rewrite frame_trace by done.
  by rewrite <- IH.
Qed.

Lemma trace_of_frames (groups : list (list record)) :
  Forall (Forall well_formed) groups ->
  trace (map (fun rs => frames (map payload rs)) groups)
  = map emitted (concat groups).
Proof.
  intros H. rewrite trace_chunks.
  induction H as [|rs groups Hrs Hgroups IH]; [done|].
  simpl. by rewrite IH, frames_trace, map_app.
Qed.

(** X4. Records sent as server-sent events (a [data: ] line and a
    blank line each), grouped into chunks in any way that cuts between
    two frames, are handed over exactly once each, in the order sent,
    nothing is logged, and nothing is thrown when the channel
    closes. *)
Theorem frames_are_emitted_once_in_order (groups : list (list record)) :
  Forall (Forall well_formed) groups ->
  decode {| chunks := map (fun rs => frames (map payload rs)) groups;
            end_of_body := Closed |}
  = (map emitted (concat groups), None).
Proof.
  intros H. rewrite <- (trace_of_frames groups H). reflexivity.
Qed.

Lemma frames_are_emitted_once_in_order_witness :
  Forall (Forall well_formed) Scenario.staged_groups /\
  decode {| chunks := map (fun rs => frames (map payload rs))
                        Scenario.staged_groups;
            end_of_body := Closed |}
  = (map emitted (concat Scenario.staged_groups), None).
Proof.
  assert (Hwf : Forall (Forall well_formed) Scenario.staged_groups).
  { repeat constructor; vm_compute; reflexivity. }
  split; [exact Hwf|].
  exact (frames_are_emitted_once_in_order Scenario.staged_groups Hwf).
Defined.

End FramingFacts.

(** * More properties of the component *)

Section SendingFacts.
Import Wire Sending.

Lemma line_trace_decoded (line : string) : Forall decoded (line_trace line).
Proof.
  unfold line_trace, handle_line, dispatch, record_event, record_effect.
  destruct (startsWith line "data: "); [|by constructor].
  destruct (JSON.parse _) as [event|]; [|by repeat constructor].
  destruct (get event "type") as [t|] eqn:Ht; [|by repeat constructor].
  repeat constructor. by eapply get_type_not_null.
Qed.

Lemma decode_decoded (b : body) : Forall decoded (fst (decode b)).
Proof.
  unfold decode, pump. rewrite handle_chunks_trace. simpl.
  assert (Hchunks : Forall decoded (flat_map chunk_trace (chunks b))).
  { induction (chunks b) as [|chunk chunks IH]; [by constructor|].
    simpl. apply Forall_app. split; [|done].
    rewrite chunk_trace_lines.
    induction (split chunk) as [|line lines IHl]; [by constructor|].
    simpl. apply Forall_app. split; [apply line_trace_decoded|done]. }
  destruct (end_of_body b) as [|e]; simpl; [done|].
  destruct (String.eqb (name e) "AbortError"); simpl; [|done].
  unfold record_event. apply Forall_app. split; [done|].
  by repeat constructor.
Qed.

(** [handleSendMessage] in terms of the trace of the channel. *)
Lemma handleSendMessage_replay (content : value) (net : fetched)
    (st : State) (cid : string) (conv : Conversation) :
  conversation_selected st = Some cid ->
  currentConversation st = Some conv ->
  handleSendMessage content net st
  = let replayed :=
      replay onEvent' perform' (stream_trace net)
        (Some (opened cid content conv st)) in
    if fails net then replayed ≫= rollback else replayed.
Proof.
  intros Hsel Hc. unfold handleSendMessage. rewrite Hsel.
  rewrite (optimistic_appends content _ conv) by done.
  unfold sendMessageStream, fails, rejection, stream_trace.
  change (perform' (Post cid content) (Some ?s))
    with (Some (perform (Post cid content) s)).
  fold (opened cid content conv st).
  destruct net as [e|[|] b]; simpl.
  - by destruct (String.eqb (name e) "AbortError").
  - rewrite pump_replay.
    destruct (thrown (end_of_body b)) as [x|] eqn:Hx; [|done].
    by rewrite (thrown_is_no_abort _ _ Hx).
  - done.
Qed.

(** What an event does to the rest of the state. *)
Lemma onEvent_flags (t : value) (event : json) (st st' : State) :
  onEvent t event st = Some st' ->
  currentConversationId st' = currentConversationId st /\
  isLoading st' = (if closing t then false else isLoading st) /\
  abortControllerRef st'
  = (if closing t then false else abortControllerRef st) /\
  requests st' = requests st.
Proof.
  unfold closing, requests.
  by_event_type; unfold setCurrentConversation; intros H;
    simplify_option_eq; name_the_type; simpl;
    rewrite ?filter_app, ?app_nil_r; done.
Qed.


Lemma replay_down (tr : list output) :
  replay onEvent' perform' tr None = None.
Proof.
  induction tr as [|o tr IH]; [done|]. simpl.
  by destruct o.
Qed.

Lemma replay_cons (o : output) (tr : list output) (st : option State) :
  replay onEvent' perform' (o :: tr) st
  = replay onEvent' perform' tr (replay_output onEvent' perform' st o).
Proof. reflexivity. Qed.

(** A trace of the decoder keeps the turn under way. *)
Lemma replay_pending (tr : list output) :
  forall (st : State) (conv : Conversation) (base : list Message),
    Forall decoded tr ->
    pending_on conv base st ->
    exists st',
      replay onEvent' perform' tr (Some st) = Some st' /\
      pending_on conv base st'.
Proof.
  induction tr as [|o tr IH]; intros st conv base Htr Hp; [by eauto|].
  apply Forall_cons in Htr as [Ho Htr]. rewrite replay_cons.
  destruct o as [t event|e]; simpl in *.
  - destruct (onEvent_pending t event st conv base Hp Ho) as (st1 & -> & Hp1).
    by apply IH.
  - apply IH; [done|]. destruct Hp as (m & l & Hc & Hl). by exists m, l.
Qed.

End SendingFacts.

Section SendingClaims.
Import Wire Sending.


Lemma replay_requests (tr : list output) :
  forall (st st' : State),
    Forall decoded tr ->
    replay onEvent' perform' tr (Some st) = Some st' ->
    requests st' = requests st.
Proof.
  induction tr as [|o tr IH]; intros st st' Htr; [by intros [= <-]|].
  apply Forall_cons in Htr as [Ho Htr]. rewrite replay_cons.
  destruct o as [t event|e]; simpl in *.
  - destruct (onEvent t event st) as [st1|] eqn:H1; [|by rewrite replay_down].
    intros H. rewrite (IH _ _ Htr H).
    by apply onEvent_flags in H1 as (_ & _ & _ & ?).
  - subst e. intros H. rewrite (IH _ _ Htr H). unfold requests. simpl.
    by rewrite filter_app, app_nil_r.
Qed.





Lemma deliver_replay (rs : list record) (st : option State) :
  Forall well_formed rs ->
  replay onEvent' perform' (map emitted rs) st
  = App.deliver (map event rs) st.
Proof.
  intros H. revert st. induction H as [|r rs (_ & _ & Ht) _ IH]; intros st;
    [done|].
  cbn [map]. rewrite replay_cons, deliver_cons, IH. f_equal.
  unfold dispatch. by rewrite Ht.
Qed.

Lemma deliver_down (events : list json) : App.deliver events None = None.
Proof.
  induction events as [|event events IH]; [done|].
  by rewrite deliver_cons, dispatch_down.
Qed.

(** X9. A staged turn end to end: the events of a turn in the
    documented order, ending in [complete], sent as server-sent events
    and cut into chunks between frames in any way, leave the
    conversation extended by the user message and a finished staged
    answer (the three stages set, no simple response, no flag on), and
    the turn closed. *)
Theorem staged_stream_end_to_end
    (content : value) (groups : list (list record)) (st : State)
    (cid : string) (conv : Conversation) :
  conversation_selected st = Some cid ->
  currentConversation st = Some conv ->
  Forall (Forall well_formed) groups ->
  in_stage_order (map event (concat groups)) ->
  ends_in (map event (concat groups)) "complete" ->
  exists st' m l,
    handleSendMessage content
      (Responds true
         {| chunks := map (fun rs => frames (map payload rs)) groups;
            end_of_body := Closed |}) st
    = Some st' /\
    currentConversation st'
    = Some (with_messages conv (messages conv ++ [userMessage content; m])) /\
    nullish (stage1 m) = false /\
    nullish (stage2 m) = false /\
    nullish (stage3 m) = false /\
    nullish (simpleResponse m) = true /\
    loading m = Some l /\ Loading.all_clear l /\
    isLoading st' = false /\ abortControllerRef st' = false.
Proof.
  intros Hsel Hc Hwf [p Hfollow] Hend.
  rewrite (handleSendMessage_replay _ _ _ cid conv) by done.
  cbv zeta. unfold stream_trace.
  change (fails (Responds true _)) with false. cbv iota.
  assert (Htrace : fst (decode
                          {| chunks := map (fun rs => frames (map payload rs))
                                         groups;
                             end_of_body := Closed |})
                   = map emitted (concat groups)).
  { by apply trace_of_frames. }
  rewrite Htrace.
  rewrite deliver_replay by (by apply Forall_concat).
  assert (Hfresh : shaped Fresh assistantMessage).
  { eexists. by repeat split. }
  destruct (follow_shaped _ Fresh p (opened cid content conv st) _
              (messages conv ++ [userMessage content]) assistantMessage
              eq_refl eq_refl Hfresh Hfollow)
    as (st' & m & Hst' & Hc' & l & Hl & Hsimple & H1 & H2 & H3 & D1 & D2
        & D3 & Hs).
  assert (Hp : p = Stage3Done \/ p = Completed)
    by (eapply terminal_phase; eauto).
  assert (Hclosed : isLoading st' = false /\ abortControllerRef st' = false).
  { destruct Hend as (ev & [evs Hevs]%last_Some & [Hty Hnn]%type_is_true).
    rewrite Hevs, deliver_app in Hst'.
    destruct (App.deliver evs _) as [st1|]; [|by rewrite deliver_down in Hst'].
    simpl in Hst'. rewrite dispatch_event, Hty in Hst'. simpl in Hst'.
    by injection Hst' as <-. }
  exists st', m, l. rewrite Hst'. split; [done|].
  split; [rewrite Hc'; unfold with_messages; simpl; by rewrite <- app_assoc|].
  destruct Hclosed. destruct Hp as [-> | ->]; repeat split; auto.
Qed.

Lemma staged_stream_end_to_end_witness :
  (conversation_selected (Sample.state_with []) = Some "c1" /\
   currentConversation (Sample.state_with [])
   = Some Scenario.empty_conversation /\
   Forall (Forall well_formed) Scenario.staged_groups /\
   in_stage_order (map event (concat Scenario.staged_groups)) /\
   ends_in (map event (concat Scenario.staged_groups)) "complete") /\
  exists st' m l,
    handleSendMessage Sample.hi
      (Responds true
         {| chunks := map (fun rs => frames (map payload rs))
                        Scenario.staged_groups;
            end_of_body := Closed |}) (Sample.state_with [])
    = Some st' /\
    currentConversation st'
    = Some (with_messages Scenario.empty_conversation
              (messages Scenario.empty_conversation
                 ++ [userMessage Sample.hi; m])) /\
    nullish (stage1 m) = false /\
    nullish (stage2 m) = false /\
    nullish (stage3 m) = false /\
    nullish (simpleResponse m) = true /\
    loading m = Some l /\ Loading.all_clear l /\
    isLoading st' = false /\ abortControllerRef st' = false.
Proof.
  assert (Hwf : Forall (Forall well_formed) Scenario.staged_groups).
  { repeat constructor; vm_compute; reflexivity. }
  assert (Horder : in_stage_order (map event (concat Scenario.staged_groups))).
  { exists Completed. vm_compute. reflexivity. }
  assert (Hend : ends_in (map event (concat Scenario.staged_groups))
                   "complete").
  { exists Sample.complete. split; vm_compute; reflexivity. }
  split; [split_and!; [reflexivity|reflexivity|exact Hwf|exact Horder
                       |exact Hend]|].
  exact (staged_stream_end_to_end Sample.hi Scenario.staged_groups
           (Sample.state_with []) "c1" Scenario.empty_conversation
           eq_refl eq_refl Hwf Horder Hend).
Defined.

(** X6. A stage or simple-mode event that finds no pending message
    (no conversation is loaded, the conversation is empty, or its last
    message has no [loading] object, as a user message or a message
    loaded from the server) throws in its updater, which takes the
    component down. *)
Theorem stage_event_without_pending_message_throws
    (t : value) (event : json) (st : State) :
  needs_loading t = true ->
  no_pending_message st ->
  onEvent t event st = None.
Proof.
  unfold needs_loading, no_pending_message. intros Ht Hno.
  repeat (apply orb_true_iff in Ht as [Ht|Ht]);
    apply is_string_true in Ht as ->;
    unfold onEvent; simpl;
    unfold setCurrentConversation, updateLast, assign_loading;
    (destruct (currentConversation st) as [conv|]; simpl; [|done]);
    (destruct (last (messages conv)) as [m|]; simpl; [|done]);
    repeat (rewrite ?Hno; simpl;
            try match goal with
              | |- context [get event ?k] => destruct (get event k)
              end);
    done.
Qed.

Lemma stage_event_without_pending_message_throws_witness :
  (needs_loading (of_json (JString "stage1_start")) = true /\
   no_pending_message
     (Sample.state_with [userMessage Sample.hi; Sample.answered])) /\
  onEvent (of_json (JString "stage1_start")) Sample.stage1_start
    (Sample.state_with [userMessage Sample.hi; Sample.answered])
  = None.
Proof.
  assert (H : no_pending_message
                (Sample.state_with [userMessage Sample.hi; Sample.answered]))
    by reflexivity.
  split; [split; [reflexivity|exact H]|].
  exact (stage_event_without_pending_message_throws
           (of_json (JString "stage1_start")) Sample.stage1_start
           (Sample.state_with [userMessage Sample.hi; Sample.answered])
           eq_refl H).
Defined.

(** X5. The walk back of a regeneration always ends in one of two
    ways: with the index of the nearest user message before the
    position, or with a negative index when no message before the
    position is a user message (in particular for a position of 0 or
    less). *)
Theorem findUserMessageIndex_finds_the_nearest_or_none
    (messages : list Message) (messageIndex : Z) :
  (findUserMessageIndex messages messageIndex < 0 /\
   no_user_before messages messageIndex)
  \/
  (exists (k : nat) (u : Message),
      findUserMessageIndex messages messageIndex = Z.of_nat k /\
      nearest_user_before messages messageIndex k u).
Proof.
  unfold findUserMessageIndex.
  destruct (Z.ltb_spec (messageIndex - 1) 0) as [Hneg|Hpos].
  { left. split; [done|]. intros j m ?. lia. }
  assert (Hwalk : forall n : nat,
             (walk_back messages n = -1 /\
              forall (j : nat) (m : Message),
                (j < n)%nat -> messages !! j = Some m -> role m <> "user")
             \/
             (exists (k : nat) (u : Message),
                 walk_back messages n = Z.of_nat k /\ (k < n)%nat /\
                 messages !! k = Some u /\ role u = "user" /\
                 forall (j : nat) (m : Message),
                   (k < j)%nat -> (j < n)%nat -> messages !! j = Some m ->
                   role m <> "user")).
  { induction n as [|n IH]; [left; split; [done|]; intros; lia|].
    simpl.
    assert (Hskip : is_user (messages !! n) = false ->
              (walk_back messages n = -1 /\
               forall (j : nat) (m : Message),
                 (j < S n)%nat -> messages !! j = Some m -> role m <> "user")
              \/
              (exists (k : nat) (u : Message),
                  walk_back messages n = Z.of_nat k /\ (k < S n)%nat /\
                  messages !! k = Some u /\ role u = "user" /\
                  forall (j : nat) (m : Message),
                    (k < j)%nat -> (j < S n)%nat -> messages !! j = Some m ->
                    role m <> "user")).
    { intros Hn.
      assert (Hnot : forall m, messages !! n = Some m -> role m <> "user").
      { intros m Hm. rewrite Hm in Hn. simpl in Hn.
        by apply String.eqb_neq. }
      destruct IH as [[Hw Hnone]|(k & u & Hw & Hk & Hu & Hr & Hbetween)].
      - left. split; [done|]. intros j m' Hj Hm'.
        destruct (decide (j = n)) as [->|]; [by apply Hnot|].
        apply (Hnone j); [lia|done].
      - right. exists k, u. split_and!; [done|lia|done|done|].
        intros j m' ? Hj Hm'.
        destruct (decide (j = n)) as [->|]; [by apply Hnot|].
        apply (Hbetween j); [lia|lia|done]. }
    destruct (is_user (messages !! n)) eqn:Hn; [|by apply Hskip].
    right. destruct (messages !! n) as [m|] eqn:Hm; [|done].
    simpl in Hn. apply String.eqb_eq in Hn.
    exists n, m. split_and!; [done|lia|done|done|intros; lia]. }
  destruct (Hwalk (Z.to_nat messageIndex))
    as [[Hw Hnone]|(k & u & Hw & Hk & Hu & Hr & Hbetween)].
  - left. rewrite Hw. split; [lia|]. intros j m ?. apply Hnone. lia.
  - right. exists k, u. split; [done|]. split_and!; [lia|done|done|].
    intros j m ? ?. apply Hbetween; lia.
Qed.

(** The first steps of a regeneration that finds its user message. *)
Lemma regenerate_found (messageIndex : Z) (k : nat) (u : Message)
    (net : fetched) (st : State) (cid : string) (conv : Conversation) :
  conversation_selected st = Some cid ->
  currentConversation st = Some conv ->
  nearest_user_before (messages conv) messageIndex k u ->
  handleRegenerateMessage messageIndex net st
  = handleSendMessage (content u) net
      (perform (Toast plain "Yanıt yeniden oluşturuluyor...")
         (set_currentConversation
            (with_messages conv
               (take (Z.to_nat messageIndex) (messages conv))) st)).
Proof.
  intros Hsel Hc Hnear. unfold handleRegenerateMessage. rewrite Hsel, Hc.
  rewrite (findUserMessageIndex_found _ _ _ _ Hnear).
  destruct Hnear as (Hk & Hu & _).
  destruct (Z.ltb_spec (Z.of_nat k) 0) as [?|_]; [lia|].
  rewrite Nat2Z.id, Hu. simpl.
  unfold setCurrentConversation. rewrite Hc. simpl.
  by rewrite slice0_nonneg by lia.
Qed.

(** X10. A regeneration does not come back from a failed request: the
    answer and what followed it were cut off before the send, and the
    rollback of the send removes the two new messages only, so the
    conversation ends as its first [messageIndex] messages. When the
    request does not fail, the conversation is those messages, then the
    question once more, then the new pending message. *)
Theorem regenerate_after_the_cut
    (messageIndex : Z) (k : nat) (u : Message) (net : fetched) (st : State)
    (cid : string) (conv : Conversation) :
  conversation_selected st = Some cid ->
  currentConversation st = Some conv ->
  nearest_user_before (messages conv) messageIndex k u ->
  exists st',
    handleRegenerateMessage messageIndex net st = Some st' /\
    requests st' = requests st ++ [Post cid (content u)] /\
    if fails net
    then currentConversation st'
         = Some (with_messages conv
                   (take (Z.to_nat messageIndex) (messages conv)))
    else exists m,
        currentConversation st'
        = Some (with_messages conv
                  (take (Z.to_nat messageIndex) (messages conv)
                     ++ [userMessage (content u); m])).
Proof.
  intros Hsel Hc Hnear.
  rewrite (regenerate_found _ k u _ _ cid conv) by done.
  set (cut := with_messages conv (take (Z.to_nat messageIndex) (messages conv))).
  set (st0 := perform _ _).
  rewrite (handleSendMessage_replay _ _ st0 cid cut) by done.
  cbv zeta.
  assert (Hp : pending_on cut (messages cut ++ [userMessage (content u)])
                 (opened cid (content u) cut st0)).
  { eexists assistantMessage, _. split; reflexivity. }
  assert (Htr : Forall decoded (stream_trace net)).
  { destruct net as [e|[|] b]; simpl; try by constructor.
    apply decode_decoded. }
  destruct (replay_pending _ _ _ _ Htr Hp) as (st1 & Hst1 & m & l & Hc1 & _).
  rewrite Hst1.
  pose proof (replay_requests _ _ _ Htr Hst1) as Hreq.
  assert (Hopened : requests (opened cid (content u) cut st0)
                    = requests st ++ [Post cid (content u)]).
  { unfold requests, opened, st0. simpl.
    by rewrite !filter_app, app_nil_r. }
  destruct (fails net); simpl.
  - unfold rollback, setCurrentConversation. simpl. rewrite Hc1. simpl.
    eexists. split; [reflexivity|]. simpl. split.
    + unfold requests in *. simpl.
      rewrite !filter_app, !app_nil_r. by rewrite <- Hopened.
    + by rewrite slice0_drop_two.
  - exists st1. split; [done|]. split; [by rewrite Hreq|].
    exists m. by rewrite Hc1, <- app_assoc.
Qed.

Lemma regenerate_after_the_cut_witness :
  (conversation_selected
     (Sample.state_with [userMessage Sample.hi; Sample.answered])
   = Some "c1" /\
   currentConversation
     (Sample.state_with [userMessage Sample.hi; Sample.answered])
   = Some Scenario.answered_conversation /\
   nearest_user_before (messages Scenario.answered_conversation) 1 0
     (userMessage Sample.hi)) /\
  exists st',
    handleRegenerateMessage 1 (FetchRejects Sample.network_error)
      (Sample.state_with [userMessage Sample.hi; Sample.answered])
    = Some st' /\
    requests st'
    = requests (Sample.state_with [userMessage Sample.hi; Sample.answered])
        ++ [Post "c1" (content (userMessage Sample.hi))] /\
    if fails (FetchRejects Sample.network_error)
    then currentConversation st'
         = Some (with_messages Scenario.answered_conversation
                   (take (Z.to_nat 1)
                      (messages Scenario.answered_conversation)))
    else exists m,
        currentConversation st'
        = Some (with_messages Scenario.answered_conversation
                  (take (Z.to_nat 1) (messages Scenario.answered_conversation)
                     ++ [userMessage (content (userMessage Sample.hi)); m])).
Proof.
  assert (Hnear : nearest_user_before
                    (messages Scenario.answered_conversation) 1 0
                    (userMessage Sample.hi)).
  { split; [lia|]. split; [reflexivity|]. split; [reflexivity|].
    intros j m ? ?. lia. }
  split; [split_and!; [reflexivity|reflexivity|exact Hnear]|].
  exact (regenerate_after_the_cut 1 0 (userMessage Sample.hi)
           (FetchRejects Sample.network_error)
           (Sample.state_with [userMessage Sample.hi; Sample.answered])
           "c1" Scenario.answered_conversation eq_refl eq_refl Hnear).
Defined.

End SendingClaims.

(** * Stopping a turn *)

Section StopFacts.
Import Wire Sending Stop.

Lemma stop_without_controller (net : cancel_net) (st : State) :
  abortControllerRef st = false ->
  handleStopGeneration net st
  = {| state := st; aborted := false; cancel_sent := None |}.
Proof. unfold handleStopGeneration. by intros ->. Qed.

Lemma stop_drops_the_controller (net : cancel_net) (st : State) :
  abortControllerRef (state (handleStopGeneration net st)) = false.
Proof.
  unfold handleStopGeneration.
  destruct (abortControllerRef st) eqn:Hr; [|done].
  destruct (conversation_selected _); [|done].
  destruct net as [|[answer|]]; done.
Qed.

(** X11. The stop button works once: whatever the first click did, a
    second click aborts nothing, sends no cancel request and leaves the
    state as it is. *)
Theorem second_stop_does_nothing (net net' : cancel_net) (st : State) :
  handleStopGeneration net' (state (handleStopGeneration net st))
  = {| state := state (handleStopGeneration net st);
       aborted := false; cancel_sent := None |}.
Proof. apply stop_without_controller, stop_drops_the_controller. Qed.



(** X13. A stop whose cancel request is answered with a body that is
    not JSON aborts the request and drops the controller, but the
    rejected call ends the handler there: the component stays loading
    as it was and no toast is shown. A cancel request that cannot be
    sent at all is logged, and the stop goes through. *)
Theorem stop_with_an_unreadable_cancel_answer
    (st : State) (cid : string) :
  abortControllerRef st = true ->
  conversation_selected st = Some cid ->
  handleStopGeneration (CancelResponds None) st
  = {| state := set_abortControllerRef false st;
       aborted := true; cancel_sent := Some cid |}
  /\
  handleStopGeneration CancelFetchRejects st
  = {| state :=
         perform (Toast plain "Yanıt durduruldu")
           (setIsLoading false
              (perform (ConsoleError "Failed to cancel request:")
                 (set_abortControllerRef false st)));
       aborted := true; cancel_sent := Some cid |}.
Proof.
  intros Hr Hsel. unfold handleStopGeneration. rewrite Hr.
  change (conversation_selected (set_abortControllerRef false st))
    with (conversation_selected st).
  by rewrite Hsel.
Qed.

Lemma stop_with_an_unreadable_cancel_answer_witness :
  (abortControllerRef Sample.sending = true /\
   conversation_selected Sample.sending = Some "c1") /\
  (handleStopGeneration (CancelResponds None) Sample.sending
   = {| state := set_abortControllerRef false Sample.sending;
        aborted := true; cancel_sent := Some "c1" |}
   /\
   handleStopGeneration CancelFetchRejects Sample.sending
   = {| state :=
          perform (Toast plain "Yanıt durduruldu")
            (setIsLoading false
               (perform (ConsoleError "Failed to cancel request:")
                  (set_abortControllerRef false Sample.sending)));
        aborted := true; cancel_sent := Some "c1" |}).
Proof.
  split; [split; reflexivity|].
  exact (stop_with_an_unreadable_cancel_answer Sample.sending "c1"
           eq_refl eq_refl).
Defined.

Lemma stop_state_commutes (f : State -> State) (net : cancel_net)
    (st : State) :
  (forall s, currentConversationId (f s) = currentConversationId s) ->
  (forall s, abortControllerRef (f s) = abortControllerRef s) ->
  (forall s, f (set_abortControllerRef false s)
             = set_abortControllerRef false (f s)) ->
  (forall s, f (setIsLoading false s) = setIsLoading false (f s)) ->
  (forall e s, f (perform e s) = perform e (f s)) ->
  handleStopGeneration net (f st)
  = {| state := f (state (handleStopGeneration net st));
       aborted := aborted (handleStopGeneration net st);
       cancel_sent := cancel_sent (handleStopGeneration net st) |}.
Proof.
  intros Hid Hr Hc Hl Hp. unfold handleStopGeneration. rewrite Hr.
  destruct (abortControllerRef st); [|done].
  unfold conversation_selected. simpl. rewrite Hid.
  destruct (currentConversationId st) as [cid|]; simpl.
  - destruct (String.eqb cid EmptyString); simpl.
    + by rewrite Hp, Hl, Hc.
    + destruct net as [|[answer|]]; simpl; by rewrite ?Hp, ?Hl, ?Hp, ?Hc.
  - by rewrite Hp, Hl, Hc.
Qed.

(** X14. The stop handler and the [aborted] event of the client do
    not get in each other's way: the event writes the flags of the
    pending message, the handler the loading flag, the controller and
    the toasts, so whichever of the two runs first the state is the
    same in the end; and an [aborted] event that throws (there is no
    message to write) throws in either order. *)
Theorem stop_and_aborted_event_commute (net : cancel_net) (st : State) :
  fst (pump onEvent' perform' aborted_read
         (Some (state (handleStopGeneration net st))))
  = (fun s => state (handleStopGeneration net s))
      <$> fst (pump onEvent' perform' aborted_read (Some st)).
Proof.
  unfold pump, aborted_read, handle_chunk. simpl.
  unfold aborted_event, onEvent'. simpl.
  unfold onEvent. simpl. unfold setCurrentConversation.
  assert (Hconv : currentConversation (state (handleStopGeneration net st))
                  = currentConversation st).
  { unfold handleStopGeneration. destruct (abortControllerRef st); [|done].
    destruct (conversation_selected _); [|done].
    by destruct net as [|[answer|]]. }
  rewrite Hconv.
  destruct (currentConversation st) as [conv|] eqn:Hc; simpl; [|done].
  destruct (updateLast _ conv) as [conv'|]; simpl; [|done].
  f_equal.
  set (f := fun s : State =>
              {| currentConversationId := currentConversationId s;
                 currentConversation := Some conv';
                 isLoading := isLoading s;
                 abortControllerRef := abortControllerRef s;
                 effects := effects s |}).
  change (f (state (handleStopGeneration net st))
          = state (handleStopGeneration net (f st))).
  by rewrite (stop_state_commutes f).
Qed.

End StopFacts.

(** * The list of conversations *)

Section ShellFacts.
Import Wire Sending Stop Shell.

Lemma send_without_selection (content : value) (net : fetched) (st : State) :
  conversation_selected st = None ->
  handleSendMessage content net st = Some st.
Proof. unfold handleSendMessage. by intros ->. Qed.

Lemma regenerate_without_selection (messageIndex : Z) (net : fetched)
    (st : State) :
  conversation_selected st = None ->
  handleRegenerateMessage messageIndex net st = Some st.
Proof. unfold handleRegenerateMessage. by intros ->. Qed.

Lemma event_without_conversation (t : value) (event : json) (st : State) :
  writes_conversation t = true ->
  currentConversation st = None ->
  onEvent t event st = None.
Proof.
  unfold writes_conversation, needs_loading. intros Ht Hc.
  repeat (apply orb_true_iff in Ht as [Ht|Ht]);
    apply is_string_true in Ht as ->;
    unfold onEvent; simpl; unfold setCurrentConversation;
    by rewrite Hc.
Qed.

(** X15. Deleting the conversation that is open clears the id and the
    conversation and leaves no entry with that id, but does not look at
    the turn: the loading flag and the abort controller stay as they
    were. From then on a send or a regeneration does nothing, a stop
    sends no cancel request, and an event of a stream still running that
    writes the conversation throws in its updater. *)
Theorem deleting_the_open_conversation (id : string) (sh : Shell.t) :
  currentConversationId (app sh) = Some id ->
  let sh' := handleDeleteConversation id true sh in
  currentConversationId (app sh') = None /\
  currentConversation (app sh') = None /\
  isLoading (app sh') = isLoading (app sh) /\
  abortControllerRef (app sh') = abortControllerRef (app sh) /\
  Forall (fun c => summary_id c <> id) (conversations sh') /\
  (forall content net,
      handleSendMessage content net (app sh') = Some (app sh')) /\
  (forall messageIndex net,
      handleRegenerateMessage messageIndex net (app sh') = Some (app sh')) /\
  (forall net, cancel_sent (handleStopGeneration net (app sh')) = None) /\
  (forall t event,
      writes_conversation t = true -> onEvent t event (app sh') = None).
Proof.
  intros Hid. simpl. unfold handleDeleteConversation.
  rewrite bool_decide_eq_true_2 by done. simpl.
  split_and!; try done.
  - apply Forall_forall. intros c Hc.
    by apply list_elem_of_filter in Hc as [? _].
  - intros net. unfold handleStopGeneration. simpl.
    by destruct (abortControllerRef (app sh)).
  - intros t event Ht. by apply event_without_conversation.
Qed.

Lemma deleting_the_open_conversation_witness :
  currentConversationId (app Scenario.shell) = Some "c1" /\
  let sh' := handleDeleteConversation "c1" true Scenario.shell in
  currentConversationId (app sh') = None /\
  currentConversation (app sh') = None /\
  isLoading (app sh') = isLoading (app Scenario.shell) /\
  abortControllerRef (app sh') = abortControllerRef (app Scenario.shell) /\
  Forall (fun c => summary_id c <> "c1") (conversations sh') /\
  (forall content net,
      handleSendMessage content net (app sh') = Some (app sh')) /\
  (forall messageIndex net,
      handleRegenerateMessage messageIndex net (app sh') = Some (app sh')) /\
  (forall net, cancel_sent (handleStopGeneration net (app sh')) = None) /\
  (forall t event,
      writes_conversation t = true -> onEvent t event (app sh') = None).
Proof.
  split; [reflexivity|].
  exact (deleting_the_open_conversation "c1" Scenario.shell eq_refl).
Defined.

(** X16. A conversation created and deleted again leaves the list as
    it was, when no entry had the new id before; the conversation that
    was open before the two steps is not opened again. *)
Theorem new_then_delete (id : string) (created_at : value) (sh : Shell.t) :
  Forall (fun c => summary_id c <> id) (conversations sh) ->
  let sh' :=
    handleDeleteConversation id true
      (handleNewConversation (Created id created_at) sh) in
  conversations sh' = conversations sh /\
  currentConversationId (app sh') = None /\
  currentConversation (app sh') = None.
Proof.
  intros Hfresh. simpl. unfold handleDeleteConversation. simpl.
  rewrite bool_decide_eq_true_2 by done. simpl. split; [|done].
  rewrite filter_cons_False by (simpl; by intros []).
  induction Hfresh as [|c cs Hc Hcs IH]; [done|].
  rewrite filter_cons_True by done. by rewrite IH.
Qed.

Lemma new_then_delete_witness :
  Forall (fun c => summary_id c <> "c9") (conversations Scenario.listed) /\
  let sh' :=
    handleDeleteConversation "c9" true
      (handleNewConversation (Created "c9" undefined) Scenario.listed) in
  conversations sh' = conversations Scenario.listed /\
  currentConversationId (app sh') = None /\
  currentConversation (app sh') = None.
Proof.
  assert (Hfresh : Forall (fun c => summary_id c <> "c9")
                     (conversations Scenario.listed)).
  { repeat constructor; simpl; congruence. }
  split; [exact Hfresh|].
  exact (new_then_delete "c9" undefined Scenario.listed Hfresh).
Defined.

(** With a conversation selected and loaded, a send issues its request
    for the selected id. *)
Lemma send_requests (content : value) (net : fetched) (st : State)
    (cid : string) (conv : Conversation) :
  conversation_selected st = Some cid ->
  currentConversation st = Some conv ->
  exists st',
    handleSendMessage content net st = Some st' /\
    requests st' = requests st ++ [Post cid content] /\
    exists rest,
      messages <$> currentConversation st' = Some (messages conv ++ rest).
Proof.
  intros Hsel Hc. rewrite (handleSendMessage_replay _ _ _ cid conv) by done.
  cbv zeta.
  assert (Hp : pending_on conv (messages conv ++ [userMessage content])
                 (opened cid content conv st)).
  { eexists assistantMessage, _. split; reflexivity. }
  assert (Htr : Forall decoded (stream_trace net)).
  { destruct net as [e|[|] b]; simpl; try by constructor.
    apply decode_decoded. }
  destruct (replay_pending _ _ _ _ Htr Hp) as (st1 & Hst1 & m & l & Hc1 & _).
  rewrite Hst1.
  pose proof (replay_requests _ _ _ Htr Hst1) as Hreq.
  assert (Hopened : requests (opened cid content conv st)
                    = requests st ++ [Post cid content]).
  { unfold requests, opened. simpl. by rewrite filter_app. }
  destruct (fails net); simpl.
  - unfold rollback, setCurrentConversation. simpl. rewrite Hc1. simpl.
    eexists. split; [reflexivity|]. simpl. split.
    + unfold requests in *. simpl.
      rewrite !filter_app, !app_nil_r. by rewrite <- Hopened.
    + exists []. by rewrite slice0_drop_two, app_nil_r.
  - exists st1. split; [done|]. split; [by rewrite Hreq|].
    exists [userMessage content; m]. rewrite Hc1. simpl.
    by rewrite <- app_assoc.
Qed.

(** X17. Selecting a conversation changes the id at once and the
    conversation only when the load returns: when the load fails, the
    conversation that was open stays under the new id, and a send then
    posts to the new id while it appends to the messages of the old
    conversation. *)
Theorem failed_load_keeps_the_previous_conversation
    (id : string) (old : Conversation) (sh : Shell.t) (content : value)
    (net : fetched) :
  id <> EmptyString ->
  currentConversation (app sh) = Some old ->
  let sh' := loadConversation None (handleSelectConversation id sh) in
  currentConversationId (app sh') = Some id /\
  currentConversation (app sh') = Some old /\
  exists st' rest,
    handleSendMessage content net (app sh') = Some st' /\
    requests st' = requests (app sh) ++ [Post id content] /\
    messages <$> currentConversation st' = Some (messages old ++ rest).
Proof.
  intros Hid Hold. simpl. split; [done|]. split; [done|].
  set (st := perform _ _).
  assert (Hsel : conversation_selected st = Some id).
  { unfold conversation_selected. simpl.
    by apply String.eqb_neq in Hid as ->. }
  destruct (send_requests content net st id old Hsel Hold)
    as (st' & Hst' & Hreq & rest & Hrest).
  exists st', rest. split; [done|]. split; [|done].
  rewrite Hreq. unfold requests, st. simpl.
  by rewrite !filter_app, !app_nil_r.
Qed.

Lemma failed_load_keeps_the_previous_conversation_witness :
  ("c2" <> EmptyString /\
   currentConversation (app Scenario.listed)
   = Some Scenario.answered_conversation) /\
  let sh' :=
    loadConversation None (handleSelectConversation "c2" Scenario.listed) in
  currentConversationId (app sh') = Some "c2" /\
  currentConversation (app sh') = Some Scenario.answered_conversation /\
  exists st' rest,
    handleSendMessage Sample.hi Scenario.open_stream (app sh') = Some st' /\
    requests st' = requests (app Scenario.listed) ++ [Post "c2" Sample.hi] /\
    messages <$> currentConversation st'
    = Some (messages Scenario.answered_conversation ++ rest).
Proof.
  assert (Hid : "c2" <> EmptyString) by congruence.
  split; [split; [exact Hid|reflexivity]|].
  exact (failed_load_keeps_the_previous_conversation "c2"
           Scenario.answered_conversation Scenario.listed Sample.hi
           Scenario.open_stream Hid eq_refl).
Defined.

End ShellFacts.

(** * The chairman, the experts and the failover pool *)

Section CouncilFacts.
Import Council.

Lemma includes_true (l : list string) (x : string) :
  includes l x = true <-> x ∈ l.
Proof. unfold includes. by rewrite bool_decide_eq_true. Qed.

Lemma includes_false (l : list string) (x : string) :
  includes l x = false <-> x ∉ l.
Proof. unfold includes. by rewrite bool_decide_eq_false. Qed.

Lemma elem_of_without (x y : string) (l : list string) :
  y ∈ without x l <-> y <> x /\ y ∈ l.
Proof. unfold without. by rewrite list_elem_of_filter. Qed.

Lemma without_absent (x : string) (l : list string) :
  x ∉ l -> without x l = l.
Proof.
  unfold without. induction l as [|y l IH]; [done|].
  intros [Hy Hl]%not_elem_of_cons.
  rewrite filter_cons_True by done. f_equal. by apply IH.
Qed.

Lemma without_length (x : string) (l : list string) :
  NoDup l -> x ∈ l -> S (length (without x l)) = length l.
Proof.
  unfold without. induction 1 as [|y l Hy Hl IH]; [by intros ?%elem_of_nil|].
  intros [->|Hx]%elem_of_cons.
  - rewrite filter_cons_False by (by intros ?).
    fold (without y l). by rewrite without_absent.
  - rewrite filter_cons_True by (by intros ->). simpl. by rewrite IH.
Qed.

Lemma eqb_false (a b : string) : String.eqb a b = false <-> a <> b.
Proof. apply String.eqb_neq. Qed.

(** The experts after another chairman has been selected. *)
Lemma handleChairmanSelect_experts (providerId : string) (prev : Settings) :
  chairman prev <> providerId ->
  experts (handleChairmanSelect providerId prev)
  = if decide (chairman prev <> EmptyString
               /\ (chairman prev ∉ experts prev)
               /\ providerId ∈ experts prev)
    then without providerId (experts prev) ++ [chairman prev]
    else without providerId (experts prev).
Proof.
  intros Hne. unfold handleChairmanSelect.
  apply eqb_false in Hne as Hne'. rewrite Hne'. simpl.
  destruct (String.eqb (chairman prev) EmptyString) eqn:Hempty; simpl.
  { apply String.eqb_eq in Hempty. rewrite decide_False; [done|].
    by intros [? _]. }
  apply eqb_false in Hempty.
  destruct (includes (without _ _) _) eqn:Hin; simpl.
  { apply includes_true, elem_of_without in Hin as [_ Hin].
    rewrite decide_False; [done|]. by intros (_ & ? & _). }
  apply includes_false in Hin.
  assert (Hout : chairman prev ∉ experts prev).
  { intros ?. apply Hin, elem_of_without. done. }
  destruct (includes (experts prev) providerId) eqn:Hp.
  - apply includes_true in Hp. by rewrite decide_True.
  - apply includes_false in Hp. rewrite decide_False; [done|].
    by intros (_ & _ & ?).
Qed.

Lemma council_is_consistent : consistent Scenario.council.
Proof.
  split.
  - apply (bool_decide_unpack _). vm_compute. exact I.
  - apply (bool_decide_unpack _). vm_compute. exact I.
Qed.

(** X18. Selecting a chairman keeps the settings consistent: the
    chairman is not among the experts and no expert is listed
    twice. *)
Theorem chairman_select_keeps_the_settings_consistent
    (providerId : string) (prev : Settings) :
  consistent prev -> consistent (handleChairmanSelect providerId prev).
Proof.
  intros [Hout Hnodup].
  destruct (decide (chairman prev = providerId)) as [Heq|Hne].
  { unfold handleChairmanSelect.
    apply String.eqb_eq in Heq as ->. by split. }
  unfold consistent.
  rewrite (handleChairmanSelect_experts _ _ Hne).
  assert (Hc : chairman (handleChairmanSelect providerId prev) = providerId).
  { unfold handleChairmanSelect. by apply eqb_false in Hne as ->. }
  rewrite Hc.
  assert (Hp : providerId ∉ without providerId (experts prev)).
  { by intros [? _]%elem_of_without. }
  assert (Hw : NoDup (without providerId (experts prev))).
  { by apply NoDup_filter. }
  destruct (decide _) as [(_ & _ & _)|_]; [|done].
  split.
  - rewrite elem_of_app, list_elem_of_singleton. by intros [?|?].
  - apply NoDup_app. split_and!; [done| |apply NoDup_singleton].
    intros x [_ Hx]%elem_of_without ->%list_elem_of_singleton. done.
Qed.

Lemma chairman_select_keeps_the_settings_consistent_witness :
  consistent Scenario.council /\
  consistent (handleChairmanSelect "openai" Scenario.council).
Proof.
  split; [exact council_is_consistent|].
  exact (chairman_select_keeps_the_settings_consistent "openai"
           Scenario.council council_is_consistent).
Defined.

(** X19. Making an expert the chairman swaps the two: the old
    chairman takes a place among the experts (the last), the number of
    experts stays the same, and the failover pool does not change. *)
Theorem chairman_from_the_experts_swaps
    (providerId : string) (prev : Settings) :
  consistent prev ->
  chairman prev <> EmptyString ->
  providerId ∈ experts prev ->
  let next := handleChairmanSelect providerId prev in
  chairman next = providerId /\
  experts next = without providerId (experts prev) ++ [chairman prev] /\
  length (experts next) = length (experts prev) /\
  getFailoverModels next = getFailoverModels prev.
Proof.
  intros [Hout Hnodup] Hempty Hp. simpl.
  assert (Hne : chairman prev <> providerId) by (by intros <-).
  assert (Hc : chairman (handleChairmanSelect providerId prev) = providerId).
  { unfold handleChairmanSelect. by apply eqb_false in Hne as ->. }
  assert (He : experts (handleChairmanSelect providerId prev)
               = without providerId (experts prev) ++ [chairman prev]).
  { rewrite (handleChairmanSelect_experts _ _ Hne). by rewrite decide_True. }
  split_and!; [done|done| |].
  - rewrite He, length_app. simpl.
    rewrite <- (without_length providerId (experts prev)) by done. lia.
  - unfold getFailoverModels. rewrite Hc, He.
    assert (Hall : all_providers (handleChairmanSelect providerId prev)
                   = all_providers prev).
    { unfold handleChairmanSelect. by apply eqb_false in Hne as ->. }
    rewrite Hall. apply list_filter_iff. intros id.
    rewrite !not_elem_of_cons, !not_elem_of_app, list_elem_of_singleton.
    rewrite elem_of_without.
    destruct (decide (id = providerId)) as [->|?]; [tauto|]. tauto.
Qed.

Lemma chairman_from_the_experts_swaps_witness :
  (consistent Scenario.council /\
   chairman Scenario.council <> EmptyString /\
   "openai" ∈ experts Scenario.council) /\
  let next := handleChairmanSelect "openai" Scenario.council in
  chairman next = "openai" /\
  experts next
  = without "openai" (experts Scenario.council)
      ++ [chairman Scenario.council] /\
  length (experts next) = length (experts Scenario.council) /\
  getFailoverModels next = getFailoverModels Scenario.council.
Proof.
  assert (Hc : chairman Scenario.council <> EmptyString) by (simpl; congruence).
  assert (Hp : "openai" ∈ experts Scenario.council) by (simpl; left).
  split; [split_and!; [exact council_is_consistent|exact Hc|exact Hp]|].
  exact (chairman_from_the_experts_swaps "openai" Scenario.council
           council_is_consistent Hc Hp).
Defined.

(** X20. A chairman picked from outside the experts replaces the old
    one without a swap: the experts stay as they are, and the old
    chairman, when it is a provider, drops into the failover pool. *)
Theorem chairman_from_outside_replaces
    (providerId : string) (prev : Settings) :
  consistent prev ->
  chairman prev <> providerId ->
  providerId ∉ experts prev ->
  let next := handleChairmanSelect providerId prev in
  chairman next = providerId /\
  experts next = experts prev /\
  (chairman prev ∈ all_providers prev ->
   chairman prev ∈ getFailoverModels next).
Proof.
  intros [Hout Hnodup] Hne Hp. simpl.
  assert (Hc : chairman (handleChairmanSelect providerId prev) = providerId).
  { unfold handleChairmanSelect. by apply eqb_false in Hne as ->. }
  assert (He : experts (handleChairmanSelect providerId prev)
               = experts prev).
  { rewrite (handleChairmanSelect_experts _ _ Hne).
    rewrite decide_False by (by intros (_ & _ & ?)).
    by apply without_absent. }
  split_and!; [done|done|].
  intros Hin. unfold getFailoverModels. rewrite Hc, He.
  apply list_elem_of_filter. split.
  - by rewrite not_elem_of_cons.
  - unfold handleChairmanSelect. by apply eqb_false in Hne as ->.
Qed.

Lemma chairman_from_outside_replaces_witness :
  (consistent Scenario.council /\
   chairman Scenario.council <> "groq" /\
   "groq" ∉ experts Scenario.council) /\
  let next := handleChairmanSelect "groq" Scenario.council in
  chairman next = "groq" /\
  experts next = experts Scenario.council /\
  (chairman Scenario.council ∈ all_providers Scenario.council ->
   chairman Scenario.council ∈ getFailoverModels next).
Proof.
  assert (Hc : chairman Scenario.council <> "groq") by (simpl; congruence).
  assert (Hp : "groq" ∉ experts Scenario.council).
  { apply (bool_decide_unpack _). vm_compute. exact I. }
  split; [split_and!; [exact council_is_consistent|exact Hc|exact Hp]|].
  exact (chairman_from_outside_replaces "groq" Scenario.council
           council_is_consistent Hc Hp).
Defined.

(** X21. Toggling an expert keeps the settings consistent and the
    chairman in place; toggling the chairman is refused with a toast
    and changes nothing. *)
Theorem expert_toggle_keeps_the_settings_consistent
    (providerId : string) (settings : Settings) :
  consistent settings ->
  consistent (handleExpertToggle providerId settings).1 /\
  chairman (handleExpertToggle providerId settings).1 = chairman settings /\
  (providerId = chairman settings ->
   handleExpertToggle providerId settings
   = (settings, [Toast failure "Başkan aynı zamanda uzman olamaz!"])).
Proof.
  intros [Hout Hnodup]. unfold handleExpertToggle.
  destruct (String.eqb (chairman settings) providerId) eqn:Heq.
  { apply String.eqb_eq in Heq. by split_and!. }
  apply eqb_false in Heq. simpl. split_and!; [|done|by intros ->].
  unfold consistent. simpl.
  destruct (includes (experts settings) providerId) eqn:Hin.
  - split; [|by apply NoDup_filter].
    by intros [_ ?]%elem_of_without.
  - apply includes_false in Hin. split.
    + rewrite elem_of_app, list_elem_of_singleton. by intros [?|?].
    + apply NoDup_app. split_and!; [done| |apply NoDup_singleton].
      by intros x Hx ->%list_elem_of_singleton.
Qed.

Lemma expert_toggle_keeps_the_settings_consistent_witness :
  consistent Scenario.council /\
  (consistent (handleExpertToggle "groq" Scenario.council).1 /\
   chairman (handleExpertToggle "groq" Scenario.council).1
   = chairman Scenario.council /\
   ("groq" = chairman Scenario.council ->
    handleExpertToggle "groq" Scenario.council
    = (Scenario.council,
       [Toast failure "Başkan aynı zamanda uzman olamaz!"]))).
Proof.
  split; [exact council_is_consistent|].
  exact (expert_toggle_keeps_the_settings_consistent "groq" Scenario.council
           council_is_consistent).
Defined.

(** X22. Toggling a provider twice gives the same experts again, up
    to their order; when the provider was not an expert, nothing at all
    has changed, and when it was, it has moved to the end. *)
Theorem expert_toggle_twice
    (providerId : string) (settings : Settings) :
  NoDup (experts settings) ->
  let twice :=
    (handleExpertToggle providerId
       (handleExpertToggle providerId settings).1).1 in
  experts twice ≡ₚ experts settings /\
  (providerId ∉ experts settings -> twice = settings) /\
  (providerId ∈ experts settings -> chairman settings <> providerId ->
   experts twice = without providerId (experts settings) ++ [providerId]).
Proof.
  intros Hnodup. simpl. unfold handleExpertToggle.
  destruct (String.eqb (chairman settings) providerId) eqn:Heq; simpl.
  { rewrite Heq. simpl. split; [done|]. split; [done|].
    apply String.eqb_eq in Heq. by intros _ []. }
  rewrite Heq. simpl.
  destruct (includes (experts settings) providerId) eqn:Hin.
  - apply includes_true in Hin.
    assert (Hout : includes (without providerId (experts settings)) providerId
                   = false).
    { apply includes_false. by intros [? _]%elem_of_without. }
    rewrite Hout. split_and!; [|done|done].
    apply NoDup_Permutation; [|done|].
    + apply NoDup_app. split_and!;
        [by apply NoDup_filter| |apply NoDup_singleton].
      by intros x [? _]%elem_of_without ->%list_elem_of_singleton.
    + intros x. rewrite elem_of_app, list_elem_of_singleton, elem_of_without.
      destruct (decide (x = providerId)) as [->|]; tauto.
  - apply includes_false in Hin as Hin'.
    assert (Hnow : includes (experts settings ++ [providerId]) providerId
                   = true).
    { apply includes_true. rewrite elem_of_app, list_elem_of_singleton.
      by right. }
    rewrite Hnow.
    assert (Hback : without providerId (experts settings ++ [providerId])
                    = experts settings).
    { unfold without. rewrite filter_app.
      rewrite filter_cons_False by (by intros ?). simpl.
      rewrite app_nil_r. by apply without_absent. }
    rewrite Hback. split_and!; [done| |done].
    intros _. by destruct settings.
Qed.

Lemma expert_toggle_twice_witness :
  NoDup (experts Scenario.council) /\
  let twice :=
    (handleExpertToggle "openai"
       (handleExpertToggle "openai" Scenario.council).1).1 in
  experts twice ≡ₚ experts Scenario.council /\
  ("openai" ∉ experts Scenario.council -> twice = Scenario.council) /\
  ("openai" ∈ experts Scenario.council ->
   chairman Scenario.council <> "openai" ->
   experts twice
   = without "openai" (experts Scenario.council) ++ ["openai"]).
Proof.
  split; [exact (proj2 council_is_consistent)|].
  exact (expert_toggle_twice "openai" Scenario.council
           (proj2 council_is_consistent)).
Defined.

(** X23. With consistent settings over distinct providers that
    include the chairman and the experts, every provider has exactly
    one part: the failover pool holds what is left when the chairman
    and the experts are taken away, so the three parts add up to the
    number of providers. *)
Theorem failover_pool_is_the_rest (settings : Settings) :
  consistent settings ->
  NoDup (all_providers settings) ->
  chairman settings ∈ all_providers settings ->
  experts settings ⊆ all_providers settings ->
  (length (getFailoverModels settings) + length (experts settings) + 1
   = length (all_providers settings))%nat /\
  forall id,
    id ∈ all_providers settings ->
    (id ∈ getFailoverModels settings <->
     id <> chairman settings /\ id ∉ experts settings).
Proof.
  intros [Hout Hnodup] Hall Hc He. split.
  - unfold getFailoverModels.
    set (selected := chairman settings :: experts settings).
    pose proof (filter_app_complement (fun id : string => id ∉ selected)
                  (all_providers settings)) as Hsplit.
    apply Permutation_length in Hsplit. rewrite length_app in Hsplit.
    assert (Hsel : filter (fun id : string => ¬ (id ∉ selected))
                     (all_providers settings) ≡ₚ selected).
    { apply NoDup_Permutation.
      - by apply NoDup_filter.
      - by apply NoDup_cons.
      - intros id. rewrite list_elem_of_filter. split.
        + intros [Hin _]. by destruct (decide (id ∈ selected)).
        + intros Hin. split; [by intros ?|].
          apply elem_of_cons in Hin as [->|Hin]; [done|by apply He]. }
    apply Permutation_length in Hsel. rewrite Hsel in Hsplit.
    subst selected. simpl in Hsplit. lia.
  - intros id Hid. unfold getFailoverModels.
    rewrite list_elem_of_filter, not_elem_of_cons. tauto.
Qed.

Lemma failover_pool_is_the_rest_witness :
  (consistent Scenario.council /\
   NoDup (all_providers Scenario.council) /\
   chairman Scenario.council ∈ all_providers Scenario.council /\
   experts Scenario.council ⊆ all_providers Scenario.council) /\
  ((length (getFailoverModels Scenario.council)
    + length (experts Scenario.council) + 1
    = length (all_providers Scenario.council))%nat /\
   forall id,
     id ∈ all_providers Scenario.council ->
     (id ∈ getFailoverModels Scenario.council <->
      id <> chairman Scenario.council /\ id ∉ experts Scenario.council)).
Proof.
  assert (Hall : NoDup (all_providers Scenario.council)).
  { apply (bool_decide_unpack _). vm_compute. exact I. }
  assert (Hc : chairman Scenario.council ∈ all_providers Scenario.council)
    by (simpl; left).
  assert (He : experts Scenario.council ⊆ all_providers Scenario.council).
  { apply (bool_decide_unpack _). vm_compute. exact I. }
  split; [split_and!; [exact council_is_consistent|exact Hall|exact Hc
                       |exact He]|].
  exact (failover_pool_is_the_rest Scenario.council council_is_consistent
           Hall Hc He).
Defined.

End CouncilFacts.

(** * What is shown *)

Section ViewFacts.
Import Chat Stage2.

Lemma dispatch_keeps_the_role (event : json) (st : State)
    (conv : Conversation) (base : list Message) (m : Message)
    (l : Loading.t) :
  currentConversation st = Some conv ->
  messages conv = base ++ [m] ->
  loading m = Some l ->
  exists st' m' l',
    dispatch onEvent' perform' event (Some st) = Some st' /\
    currentConversation st' = Some (with_messages conv (base ++ [m'])) /\
    loading m' = Some l' /\
    role m' = role m /\
    (type_is "simple_mode_complete" event = false ->
     simpleResponse m' = simpleResponse m).
Proof.
  intros Hc Hm Hl. rewrite dispatch_event. unfold type_is.
  destruct (get event "type") as [t|] eqn:Ht.
  - destruct (onEvent_total t event st conv base m l Hc Hm Hl
                (get_type_not_null _ _ Ht)) as [st' Hst'].
    destruct (onEvent_fields t event st st' conv base m Hc Hm Hst')
      as (m' & Hc' & _ & Hrole & _ & Hl' & Hsimple & _).
    destruct (Hl' (ex_intro _ l Hl)) as [l' Hl''].
    exists st', m', l'. split_and!; [done|done|done|done|].
    intros Htype. by rewrite Htype in Hsimple.
  - exists (perform parse_failure st), m, l. simpl.
    by rewrite Hc, (with_messages_same conv _ Hm).
Qed.

Lemma deliver_keeps_the_role (events : list json) :
  forall (st : State) (conv : Conversation) (base : list Message)
         (m : Message) (l : Loading.t),
    currentConversation st = Some conv ->
    messages conv = base ++ [m] ->
    loading m = Some l ->
    exists st' m' l',
      App.deliver events (Some st) = Some st' /\
      currentConversation st' = Some (with_messages conv (base ++ [m'])) /\
      loading m' = Some l' /\
      role m' = role m /\
      (Forall (fun event => type_is "simple_mode_complete" event = false)
         events ->
       simpleResponse m' = simpleResponse m).
Proof.
  induction events as [|event events IH]; intros st conv base m l Hc Hm Hl.
  - exists st, m, l. simpl.
    by rewrite Hc, (with_messages_same conv _ Hm).
  - destruct (dispatch_keeps_the_role event st conv base m l Hc Hm Hl)
      as (st1 & m1 & l1 & Hst1 & Hc1 & Hl1 & Hr1 & Hs1).
    destruct (IH st1 _ base m1 l1 Hc1 eq_refl Hl1)
      as (st' & m' & l' & Hst' & Hc' & Hl' & Hr' & Hs').
    exists st', m', l'. rewrite deliver_cons, Hst1.
    split_and!; [done|done|done|congruence|].
    intros [Hevent Hall]%Forall_cons. rewrite Hs', Hs1; done.
Qed.

Ltac shown :=
  solve [repeat first
           [ apply list_elem_of_here
           | apply list_elem_of_further
           | apply elem_of_app; right ]].

Lemma lastMessage_snoc (st : State) (conv : Conversation)
    (base : list Message) (m : Message) :
  currentConversation st = Some (with_messages conv (base ++ [m])) ->
  lastMessage st = Some m.
Proof. unfold lastMessage. intros ->. simpl. by rewrite last_snoc. Qed.


(** X24. Once the pending answer holds a simple response, the view
    shows it and nothing of the stages, whatever the stream delivers
    afterwards short of another [simple_mode_complete]: stage events
    still write the message, but no stage spinner, no stage panel and
    no regenerate button is shown for it. *)
Theorem simple_answer_hides_the_stages
    (events : list json) (st : State) (conv : Conversation)
    (base : list Message) (m : Message) (l : Loading.t) :
  currentConversation st = Some conv ->
  messages conv = base ++ [m] ->
  loading m = Some l ->
  role m <> "user" ->
  truthy (simpleResponse m) = true ->
  Forall (fun event => type_is "simple_mode_complete" event = false)
    events ->
  exists st' m',
    App.deliver events (Some st) = Some st' /\
    lastMessage st' = Some m' /\
    forall isLoading,
      SimpleResponse ∈ blocks isLoading m' /\
      Forall (fun x => is_staged x = false) (blocks isLoading m').
Proof.
  intros Hc Hm Hl Hrole Hsimple Hall.
  destruct (deliver_keeps_the_role events st conv base m l Hc Hm Hl)
    as (st' & m' & l' & Hst' & Hc' & Hl' & Hr' & Hs').
  exists st', m'. split; [done|]. split; [by eapply lastMessage_snoc|].
  intros isLoading. unfold blocks.
  apply String.eqb_neq in Hrole. rewrite Hr', Hrole, (Hs' Hall), Hsimple.
  simpl. split; [shown|].
  apply Forall_app. split; [|by repeat constructor].
  unfold when. destruct (flag _ _); by repeat constructor.
Qed.

Lemma simple_answer_hides_the_stages_witness :
  (currentConversation
     (Sample.state_with [userMessage Sample.hi; Scenario.simple_message])
   = Some {| conv_id := "c1";
             messages := [userMessage Sample.hi; Scenario.simple_message] |} /\
   [userMessage Sample.hi; Scenario.simple_message]
   = [userMessage Sample.hi] ++ [Scenario.simple_message] /\
   loading Scenario.simple_message
   = Some {| Loading.stage1 := false; Loading.stage2 := false;
             Loading.stage3 := false; Loading.simple := false;
             Loading.stage1Models := undefined |} /\
   role Scenario.simple_message <> "user" /\
   truthy (simpleResponse Scenario.simple_message) = true /\
   Forall (fun event => type_is "simple_mode_complete" event = false)
     [Sample.stage1_start; Sample.stage1_complete]) /\
  exists st' m',
    App.deliver [Sample.stage1_start; Sample.stage1_complete]
      (Some (Sample.state_with
               [userMessage Sample.hi; Scenario.simple_message]))
    = Some st' /\
    lastMessage st' = Some m' /\
    forall isLoading,
      SimpleResponse ∈ blocks isLoading m' /\
      Forall (fun x => is_staged x = false) (blocks isLoading m').
Proof.
  assert (Hrole : role Scenario.simple_message <> "user")
    by (simpl; congruence).
  assert (Hall : Forall
                   (fun event => type_is "simple_mode_complete" event = false)
                   [Sample.stage1_start; Sample.stage1_complete]).
  { repeat constructor; vm_compute; reflexivity. }
  split; [split_and!; [reflexivity|reflexivity|reflexivity|exact Hrole
                       |reflexivity|exact Hall]|].
  exact (simple_answer_hides_the_stages
           [Sample.stage1_start; Sample.stage1_complete]
           (Sample.state_with [userMessage Sample.hi; Scenario.simple_message])
           _ [userMessage Sample.hi] Scenario.simple_message _
           eq_refl eq_refl eq_refl Hrole eq_refl Hall).
Defined.



Lemma elem_of_when (x y : block) (b : bool) :
  x ∈ when b y <-> b = true /\ x = y.
Proof.
  unfold when. destruct b.
  - rewrite list_elem_of_singleton. by intuition.
  - rewrite elem_of_nil. by intuition.
Qed.

(** X28. The regenerate button is offered for a message exactly when
    it is not a user message, holds a final answer and no simple
    response, and the component is not loading: no regeneration can be
    started from the view while a turn is under way, or from a question
    or a simple answer. *)
Theorem regenerate_is_offered_for_staged_answers_only
    (isLoading : bool) (msg : Message) :
  RegenerateButton ∈ blocks isLoading msg <->
  role msg <> "user" /\
  truthy (simpleResponse msg) = false /\
  truthy (stage3 msg) = true /\
  isLoading = false.
Proof.
  unfold blocks.
  destruct (String.eqb_spec (role msg) "user") as [Hu|Hu].
  { rewrite list_elem_of_singleton. split; [done|]. by intros [? _]. }
  destruct (truthy (simpleResponse msg)); simpl;
    rewrite ?elem_of_app, ?elem_of_when, ?elem_of_nil,
      ?list_elem_of_singleton, ?andb_true_iff, ?negb_true_iff;
    intuition congruence.
Qed.

Lemma split_on_plain (text : string) :
  has_slash text = false -> split_on "/" text = [text].
Proof.
  induction text as [|c text IH]; [done|]. simpl.
  intros [Hc Ht]%orb_false_iff. by rewrite Hc, IH.
Qed.

Lemma split_on_segment (a rest : string) :
  has_slash a = false ->
  split_on "/" (a +:+ String "/" rest) = a :: split_on "/" rest.
Proof.
  induction a as [|c a IH]; [done|]. simpl.
  intros [Hc Ha]%orb_false_iff.
  change (String c a +:+ String "/" rest)
    with (String c (a +:+ String "/" rest)).
  simpl. by rewrite Hc, IH.
Qed.

(** X26. The short name of a model id without a slash is the id. *)
Theorem short_name_without_a_slash (model : string) :
  has_slash model = false -> modelShortName model = model.
Proof.
  intros H. unfold modelShortName. by rewrite split_on_plain.
Qed.

Lemma short_name_without_a_slash_witness :
  has_slash "gemini" = false /\ modelShortName "gemini" = "gemini".
Proof.
  split; [reflexivity|].
  exact (short_name_without_a_slash "gemini" eq_refl).
Defined.

(** X27. The short name of [a/b] is [b], and so is the short name of
    [a/b/c]: what follows a second slash is dropped. When nothing
    stands between the first slash and the end or the second slash, the
    whole id is shown. *)
Theorem short_name_is_the_second_segment
    (a b : string) (tail : option string) :
  has_slash a = false ->
  has_slash b = false ->
  let model :=
    a +:+ String "/"
            (b +:+ match tail with
                   | Some c => String "/" c
                   | None => EmptyString
                   end) in
  modelShortName model = if String.eqb b EmptyString then model else b.
Proof.
  intros Ha Hb. simpl. unfold modelShortName.
  rewrite split_on_segment by done.
  destruct tail as [c|].
  - rewrite split_on_segment by done. done.
  - rewrite string_append_nil, split_on_plain by done. done.
Qed.

Lemma short_name_is_the_second_segment_witness :
  (has_slash "openai" = false /\ has_slash "gpt-4o" = false) /\
  let model :=
    "openai" +:+ String "/"
                   ("gpt-4o" +:+ match Some "mini" with
                                 | Some c => String "/" c
                                 | None => EmptyString
                                 end) in
  modelShortName model
  = if String.eqb "gpt-4o" EmptyString then model else "gpt-4o".
Proof.
  split; [split; reflexivity|].
  exact (short_name_is_the_second_segment "openai" "gpt-4o" (Some "mini")
           eq_refl eq_refl).
Defined.

End ViewFacts.
